(** * pvmm: pitch estimator, smoothing filter, capture pipeline and
      drift-corrected metronome timer

    A shallow embedding of

    - [src/audio/pitch-detector.js]   (class [PitchDetector]),
    - [src/audio/audio-processor.js]  (class [AudioProcessor]),
    - [src/utils/metronome-timer.js]  (class [MetronomeTimer]),
    - [src/components/visual-metronome.js] (the tempo handling of
      [VisualMetronome]),
    - [src/utils/note-converter.js], [src/audio/reference-player.js],
      [src/utils/headphone-detector.js] and the note display of
      [src/components/voice-monitor.js].

    JavaScript numbers are carried as exact rationals ([Q]): sums,
    products, differences and quotients are the exact ones, and equality
    of computed numbers is [Qeq] ([==]).  Integer quantities that the code
    uses as integers (lengths, loop indices, the lag, beat numbers, timer
    handles) are [nat], [Z] or [positive].  There is no infinity and no
    not-a-number in [Q]: the one place where the code can compute [0 / 0]
    is handled where it occurs, and a tempo is taken to be a non-zero
    number wherever an interval is computed from it. *)

From Stdlib Require Import QArith ZArith List Lia Lqa Qminmax Qabs Qround Bool String
  Ascii Decimal DecimalString DecimalNat DecimalZ Qpower.
Import ListNotations.
Open Scope Q_scope.

(** ** Number helpers *)

(** [x < y] on numbers, as a boolean. *)
Definition Qltb (x y : Q) : bool := negb (Qle_bool y x).

(** ** Divisions with a trace

    Every [/] of [autoCorrelate] has an integer divisor ([SIZE],
    [MAX_SAMPLES], [bestOffset]).  The estimator runs in a writer monad
    that records, in program order, the divisor of each division it
    performs. *)

Module Traced.

Definition t (A : Type) : Type := (A * list Z)%type.

Definition ret {A : Type} (a : A) : t A := (a, []).

Definition bind {A B : Type} (m : t A) (k : A -> t B) : t B :=
  let (a, l) := m in
  let (b, l') := k a in
  (b, l ++ l').

(** [a / d], recording [d]. *)
Definition divide (a : Q) (d : Z) : t Q := (a / inject_Z d, [d]).

Definition value {A : Type} (m : t A) : A := fst m.
Definition divisors {A : Type} (m : t A) : list Z := snd m.

End Traced.

Notation "x <- m ;; k" := (Traced.bind m (fun x => k))
  (at level 61, m at next level, right associativity).

(** ** [PitchDetector] *)

Module PitchDetector.

(** The three variables the lag loop of [autoCorrelate] carries. *)
Record Scan : Type := mkScan {
  bestOffset : Z;
  bestCorrelation : Q;
  lastCorrelation : Q
}.

(** [buffer[i]]; every index the code uses is inside the buffer. *)
Definition sample (buffer : list Q) (i : nat) : Q := nth i buffer 0.

(** The inner loop: [correlation += Math.abs(buffer[i] - buffer[i + offset])]
    for [i] from [0] to [MAX_SAMPLES - 1]. *)
Definition absDiffSum (buffer : list Q) (MAX_SAMPLES offset : nat) : Q :=
  fold_left
    (fun correlation i =>
       correlation + Qabs (sample buffer i - sample buffer (i + offset)))
    (seq 0 MAX_SAMPLES) 0.

(** [correlation = 1 - (correlation / MAX_SAMPLES)]. *)
Definition similarity (buffer : list Q) (MAX_SAMPLES offset : nat)
  : Traced.t Q :=
  q <- Traced.divide (absDiffSum buffer MAX_SAMPLES offset)
         (Z.of_nat MAX_SAMPLES) ;;
  Traced.ret (1 - q).

(** One iteration of the lag loop, for one [offset]. *)
Definition scanStep (buffer : list Q) (MAX_SAMPLES : nat)
  (st : Scan) (offset : nat) : Traced.t Scan :=
  correlation <- similarity buffer MAX_SAMPLES offset ;;
  Traced.ret
    (if Qltb (9 # 10) correlation && Qltb (lastCorrelation st) correlation
     then
       let foundGoodCorrelation := correlation - lastCorrelation st in
       if Qltb (bestCorrelation st) foundGoodCorrelation
       then mkScan (Z.of_nat offset) foundGoodCorrelation correlation
       else mkScan (bestOffset st) (bestCorrelation st) correlation
     else mkScan (bestOffset st) (bestCorrelation st) correlation).

(** The loop over a list of offsets. *)
Fixpoint scanFrom (buffer : list Q) (MAX_SAMPLES : nat)
  (offsets : list nat) (st : Scan) : Traced.t Scan :=
  match offsets with
  | [] => Traced.ret st
  | offset :: rest =>
      st' <- scanStep buffer MAX_SAMPLES st offset ;;
      scanFrom buffer MAX_SAMPLES rest st'
  end.

(** [for (let offset = 1; offset < MAX_SAMPLES; offset++)], started with
    [bestOffset = -1], [bestCorrelation = 0], [lastCorrelation = 1]. *)
Definition scan (buffer : list Q) : Traced.t Scan :=
  let MAX_SAMPLES := Nat.div (List.length buffer) 2 in
  scanFrom buffer MAX_SAMPLES (seq 1 (MAX_SAMPLES - 1)) (mkScan (-1) 0 1).

Section WithSqrt.

(** [Math.sqrt].  A square root is not rational; the estimator is
    parametrised by the host's function and nothing below depends on its
    values. *)
Variable sqrt : Q -> Q.

(** [rms = Math.sqrt(rms / SIZE)] after the summing loop.  On the empty
    buffer this is [Math.sqrt(0 / 0)], not a number: [None]. *)
Definition rootMeanSquare (buffer : list Q) : Traced.t (option Q) :=
  let SIZE := List.length buffer in
  let rms := fold_left (fun rms val => rms + val * val) buffer 0 in
  q <- Traced.divide rms (Z.of_nat SIZE) ;;
  Traced.ret (if Nat.eqb SIZE 0 then None else Some (sqrt q)).

(** [rms < 0.01]; a comparison with not-a-number is false. *)
Definition tooQuiet (rms : option Q) : bool :=
  match rms with
  | Some r => Qltb r (1 # 100)
  | None => false
  end.

Definition autoCorrelate (sampleRate : Q) (buffer : list Q) : Traced.t Q :=
  rms <- rootMeanSquare buffer ;;
  if tooQuiet rms then Traced.ret (-1)
  else
    st <- scan buffer ;;
    if Z.eqb (bestOffset st) (-1) then Traced.ret (-1)
    else Traced.divide sampleRate (bestOffset st).

(** [detectPitch]: [null] is [None]. *)
Definition detectPitch (sampleRate : Q) (dataArray : list Q)
  : Traced.t (option Q) :=
  frequency <- autoCorrelate sampleRate dataArray ;;
  Traced.ret
    (if Qltb 0 frequency && Qle_bool 60 frequency && Qle_bool frequency 1000
     then Some frequency
     else None).

End WithSqrt.

(** A runnable stand-in for [Math.sqrt]: the square root rounded down to
    a multiple of [1/1000]. *)
Definition sqrtMilli (q : Q) : Q :=
  Z.sqrt (Qfloor (q * 1000000)) # 1000.

End PitchDetector.

(** ** The host's clock and timers

    [Date.now()], the [setTimeout] handles that were set and have neither
    fired nor been cleared (each with the time it is due), the next fresh
    handle (handles are positive integers, so a handle is always truthy),
    and the calls of [onBeat] so far, oldest first, each with the clock
    reading at the call. *)

Module Host.

Record t : Type := mk {
  now : Q;
  pending : list (positive * Q);
  nextHandle : positive;
  beats : list (Z * Q)
}.

(** A page that has just loaded, at clock reading [t0]. *)
Definition boot (t0 : Q) : t := mk t0 [] 1%positive [].

(** [setTimeout(callback, delay)]: the new handle and the new host. *)
Definition setTimeout (delay : Q) (h : t) : positive * t :=
  (nextHandle h,
   mk (now h) (pending h ++ [(nextHandle h, now h + delay)])
      (Pos.succ (nextHandle h)) (beats h)).

(** [clearTimeout(id)]. *)
Definition clearTimeout (id : positive) (h : t) : t :=
  mk (now h)
     (filter (fun e => negb (Pos.eqb (fst e) id)) (pending h))
     (nextHandle h) (beats h).

(** The time handle [id] is due, when it is pending. *)
Definition due (id : positive) (h : t) : option Q :=
  option_map snd (find (fun e => Pos.eqb (fst e) id) (pending h)).

(** The callback [onBeat(beat)], observed. *)
Definition onBeat (beat : Z) (h : t) : t :=
  mk (now h) (pending h) (nextHandle h) (beats h ++ [(beat, now h)]).

(** The clock moves to [t']. *)
Definition setNow (t' : Q) (h : t) : t :=
  mk t' (pending h) (nextHandle h) (beats h).

End Host.

(** ** [MetronomeTimer] *)

Module MetronomeTimer.

Record t : Type := mk {
  bpm : Q;
  beatsPerMeasure : Z;
  intervalMs : Q;
  expectedTime : option Q;
  timeoutId : option positive;
  currentBeat : Z;
  isRunning : bool
}.

(** The timer object together with the host it runs on. *)
Record World : Type := mkWorld {
  host : Host.t;
  self : t
}.

(** [null] used as a number is [0]. *)
Definition num (o : option Q) : Q :=
  match o with
  | Some q => q
  | None => 0
  end.

(** [constructor(bpm, beatsPerMeasure, onBeat)]. *)
Definition create (bpm : Q) (beatsPerMeasure : Z) : t :=
  mk bpm beatsPerMeasure ((60 / bpm) * 1000) None None 1%Z false.

(** [tick()]: arm the next wake-up. *)
Definition tick (w : World) : World :=
  let m := self w in
  if isRunning m then
    let delay :=
      Qmax 0 (intervalMs m - (Host.now (host w) - num (expectedTime m))) in
    let (id, h) := Host.setTimeout delay (host w) in
    mkWorld h
      (mk (bpm m) (beatsPerMeasure m) (intervalMs m) (expectedTime m)
          (Some id) (currentBeat m) (isRunning m))
  else w.

(** The function handed to [setTimeout] in [tick()]. *)
Definition onTimeout (w : World) : World :=
  let m := self w in
  let beat := (currentBeat m + 1)%Z in
  let beat := if Z.ltb (beatsPerMeasure m) beat then 1%Z else beat in
  let h := Host.onBeat beat (host w) in
  tick
    (mkWorld h
       (mk (bpm m) (beatsPerMeasure m) (intervalMs m)
           (Some (num (expectedTime m) + intervalMs m))
           (timeoutId m) beat (isRunning m))).

(** [start()]. *)
Definition start (w : World) : World :=
  let m := self w in
  if isRunning m then w
  else
    let h := Host.onBeat 1 (host w) in
    tick
      (mkWorld h
         (mk (bpm m) (beatsPerMeasure m) (intervalMs m)
             (Some (Host.now (host w) + intervalMs m))
             (timeoutId m) 1%Z true)).

(** The part [stop()] and [pause()] share: clear the pending wake-up. *)
Definition cancel (w : World) : World :=
  let m := self w in
  match timeoutId m with
  | Some id =>
      mkWorld (Host.clearTimeout id (host w))
        (mk (bpm m) (beatsPerMeasure m) (intervalMs m) (expectedTime m)
            None (currentBeat m) false)
  | None =>
      mkWorld (host w)
        (mk (bpm m) (beatsPerMeasure m) (intervalMs m) (expectedTime m)
            None (currentBeat m) false)
  end.

(** [stop()]. *)
Definition stop (w : World) : World :=
  let w' := cancel w in
  let m := self w' in
  mkWorld (host w')
    (mk (bpm m) (beatsPerMeasure m) (intervalMs m) (expectedTime m)
        (timeoutId m) 1%Z (isRunning m)).

(** [updateBPM(newBpm)]. *)
Definition updateBPM (newBpm : Q) (w : World) : World :=
  let m := self w in
  let interval := (60 / newBpm) * 1000 in
  mkWorld (host w)
    (mk newBpm (beatsPerMeasure m) interval
        (if isRunning m then Some (Host.now (host w) + interval)
         else expectedTime m)
        (timeoutId m) (currentBeat m) (isRunning m)).

(** [updateTimeSignature(beatsPerMeasure)]. *)
Definition updateTimeSignature (beats : Z) (w : World) : World :=
  let m := self w in
  let w' :=
    mkWorld (host w)
      (mk (bpm m) beats (intervalMs m) (expectedTime m) (timeoutId m)
          1%Z (isRunning m)) in
  if isRunning m then start (stop w') else w'.

(** [pause()]. *)
Definition pause (w : World) : World := cancel w.

(** [resume()]. *)
Definition resume (w : World) : World :=
  let m := self w in
  if isRunning m then w
  else
    tick
      (mkWorld (host w)
         (mk (bpm m) (beatsPerMeasure m) (intervalMs m)
             (Some (Host.now (host w) + intervalMs m))
             (timeoutId m) (currentBeat m) true)).

Definition getIsRunning (w : World) : bool := isRunning (self w).
Definition getCurrentBeat (w : World) : Z := currentBeat (self w).

(** The host runs the callback of handle [id], [late] milliseconds after
    it is due ([late = 0]: a clock without jitter).  Nothing happens when
    [id] is not pending. *)
Definition fire (id : positive) (late : Q) (w : World) : World :=
  match Host.due id (host w) with
  | Some d =>
      let h := Host.clearTimeout id (host w) in
      onTimeout (mkWorld (Host.setNow (Qmax (Host.now h) d + late) h) (self w))
  | None => w
  end.

(** Whatever can happen to a timer: its methods, a wake-up, and time
    passing between two of these. *)
Inductive Op : Type :=
| Start
| Stop
| Pause
| Resume
| UpdateBPM (newBpm : Q)
| UpdateTimeSignature (beats : Z)
| Fire (id : positive) (late : Q)
| Elapse (dt : Q).

Definition exec (o : Op) (w : World) : World :=
  match o with
  | Start => start w
  | Stop => stop w
  | Pause => pause w
  | Resume => resume w
  | UpdateBPM newBpm => updateBPM newBpm w
  | UpdateTimeSignature beats => updateTimeSignature beats w
  | Fire id late => fire id late w
  | Elapse dt =>
      mkWorld (Host.setNow (Host.now (host w) + dt) (host w)) (self w)
  end.

Definition run (ops : list Op) (w : World) : World :=
  fold_left (fun w o => exec o w) ops w.

(** [new MetronomeTimer(bpm, beatsPerMeasure, onBeat)] on a host whose
    clock reads [t0]. *)
Definition fresh (t0 : Q) (bpm : Q) (beatsPerMeasure : Z) : World :=
  mkWorld (Host.boot t0) (create bpm beatsPerMeasure).

(** The wake-up the timer is waiting for. *)
Definition wake (late : Q) (w : World) : World :=
  match timeoutId (self w) with
  | Some id => fire id late w
  | None => w
  end.

(** One wake-up after another, each late by the given amount. *)
Fixpoint wakes (lates : list Q) (w : World) : World :=
  match lates with
  | [] => w
  | late :: rest => wakes rest (wake late w)
  end.

(** [n] wake-ups in a row on a clock without jitter. *)
Definition steady (n : nat) (w : World) : World := wakes (repeat 0 n) w.

(** The time signatures a caller may ask for have at least one beat. *)
Definition validOp (o : Op) : bool :=
  match o with
  | UpdateTimeSignature beats => Z.leb 1 beats
  | _ => true
  end.

(** The beat index is inside the cycle. *)
Definition inCycle (w : World) : Prop :=
  (1 <= currentBeat (self w) <= beatsPerMeasure (self w))%Z.

(** The timer is running and waits for exactly one wake-up, handle [id],
    due at [d]. *)
Definition armed (w : World) (id : positive) (d : Q) : Prop :=
  isRunning (self w) = true
  /\ timeoutId (self w) = Some id
  /\ Host.pending (host w) = [(id, d)].

(** [1, 2, ..., beats, 1, 2, ...]: the first [n] beats of a cycle. *)
Definition cycle (beats : Z) (n : nat) : list Z :=
  map (fun i => (Z.of_nat i mod beats + 1)%Z) (seq 0 n).

(** The clock readings of the [onBeat] calls, and the beats, in order. *)
Definition beatTimes (w : World) : list Q := map snd (Host.beats (host w)).
Definition beatNumbers (w : World) : list Z := map fst (Host.beats (host w)).

End MetronomeTimer.

(** ** [VisualMetronome]: the tempo and time-signature handling

    The component owns at most one [MetronomeTimer]; [localStorage] is the
    pair of saved settings.  Rendering and the 100 ms flash of
    [handleBeatTick] are left out: the timer's [onBeat] is observed through
    [Host.beats]. *)

Module VisualMetronome.

Record t : Type := mk {
  isActive : bool;
  bpm : Q;
  timeSignature : string;
  timer : option MetronomeTimer.t;
  savedBpm : option Q;
  savedTimeSignature : option string
}.

Record Page : Type := mkPage {
  host : Host.t;
  self : t
}.

(** The constructor's defaults, before [loadSettings()]. *)
Definition create : t := mk false 60 "4/4" None None None.

(** [getBeatsPerMeasure()]. *)
Definition getBeatsPerMeasure (c : t) : Z :=
  if String.eqb (timeSignature c) "4/4" then 4%Z else 8%Z.

(** Run a method of [this.timer] on the page's host. *)
Definition onTimer (f : MetronomeTimer.World -> MetronomeTimer.World)
  (m : MetronomeTimer.t) (pg : Page) : Page :=
  let w := f (MetronomeTimer.mkWorld (host pg) m) in
  let c := self pg in
  mkPage (MetronomeTimer.host w)
    (mk (isActive c) (bpm c) (timeSignature c)
        (Some (MetronomeTimer.self w)) (savedBpm c) (savedTimeSignature c)).

(** [toggleMetronome()]. *)
Definition toggleMetronome (pg : Page) : Page :=
  let c := self pg in
  if isActive c then
    let pg' :=
      match timer c with
      | Some m => onTimer MetronomeTimer.stop m pg
      | None => pg
      end in
    let c' := self pg' in
    mkPage (host pg')
      (mk false (bpm c') (timeSignature c') (timer c')
          (savedBpm c') (savedTimeSignature c'))
  else
    let m := MetronomeTimer.create (bpm c) (getBeatsPerMeasure c) in
    let pg' := onTimer MetronomeTimer.start m pg in
    let c' := self pg' in
    mkPage (host pg')
      (mk true (bpm c') (timeSignature c') (timer c')
          (savedBpm c') (savedTimeSignature c')).

(** [changeBpm(delta)]. *)
Definition changeBpm (delta : Q) (pg : Page) : Page :=
  let c := self pg in
  let newBpm := Qmax 20 (Qmin 150 (bpm c + delta)) in
  if negb (Qeq_bool newBpm (bpm c)) then
    let pg' :=
      mkPage (host pg)
        (mk (isActive c) newBpm (timeSignature c) (timer c)
            (Some newBpm) (Some (timeSignature c))) in
    match timer c with
    | Some m => onTimer (MetronomeTimer.updateBPM newBpm) m pg'
    | None => pg'
    end
  else pg.

End VisualMetronome.

(** ** [AudioProcessor] *)

Module AudioProcessor.

(** What [stop()] asks of the platform. *)
Inductive HostCall : Type :=
| CancelAnimationFrame (id : positive)
| DisconnectGain
| DisconnectMicrophone
| StopTracks
| CloseContext.

(** A method either returns, having made some host calls, or throws. *)
Inductive Result (A : Type) : Type :=
| Returned (a : A) (calls : list HostCall)
| Thrown (error : string).
Arguments Returned {A} a calls.
Arguments Thrown {A} error.

Definition ret {A : Type} (a : A) : Result A := Returned a [].

Definition bind {A B : Type} (m : Result A) (k : A -> Result B) : Result B :=
  match m with
  | Returned a calls =>
      match k a with
      | Returned b calls' => Returned b (calls ++ calls')
      | Thrown e => Thrown e
      end
  | Thrown e => Thrown e
  end.

(** [object.method()]: a [TypeError] when [object] is [null]. *)
Definition invoke {X : Type} (object : option X) (call : HostCall)
  : Result unit :=
  match object with
  | Some _ => Returned tt [call]
  | None => Thrown "TypeError"
  end.

(** A global function of the platform. *)
Definition platform (call : HostCall) : Result unit := Returned tt [call].

Definition truthy {X : Type} (object : option X) : bool :=
  match object with
  | Some _ => true
  | None => false
  end.

(** The fields of the object.  A node is present or [null]; the audio
    context carries its sample rate, the analyser its [fftSize], the gain
    node its gain. *)
Record t : Type := mk {
  audioContext : option Q;
  analyser : option nat;
  microphone : option unit;
  gainNode : option Q;
  pitchDetector : option Q;
  animationFrame : option positive;
  stream : option unit;
  monitoringEnabled : bool;
  smoothedFrequency : option Q;
  smoothingFactor : Q
}.

(** [constructor(onPitchUpdate)]. *)
Definition create : t :=
  mk None None None None None None None false None (3 # 10).

Definition setAnimationFrame (v : option positive) (p : t) : t :=
  mk (audioContext p) (analyser p) (microphone p) (gainNode p)
     (pitchDetector p) v (stream p) (monitoringEnabled p)
     (smoothedFrequency p) (smoothingFactor p).
Definition setGainNode (v : option Q) (p : t) : t :=
  mk (audioContext p) (analyser p) (microphone p) v
     (pitchDetector p) (animationFrame p) (stream p) (monitoringEnabled p)
     (smoothedFrequency p) (smoothingFactor p).
Definition setMicrophone (v : option unit) (p : t) : t :=
  mk (audioContext p) (analyser p) v (gainNode p)
     (pitchDetector p) (animationFrame p) (stream p) (monitoringEnabled p)
     (smoothedFrequency p) (smoothingFactor p).
Definition setAnalyser (v : option nat) (p : t) : t :=
  mk (audioContext p) v (microphone p) (gainNode p)
     (pitchDetector p) (animationFrame p) (stream p) (monitoringEnabled p)
     (smoothedFrequency p) (smoothingFactor p).
Definition setStream (v : option unit) (p : t) : t :=
  mk (audioContext p) (analyser p) (microphone p) (gainNode p)
     (pitchDetector p) (animationFrame p) v (monitoringEnabled p)
     (smoothedFrequency p) (smoothingFactor p).
Definition setAudioContext (v : option Q) (p : t) : t :=
  mk v (analyser p) (microphone p) (gainNode p)
     (pitchDetector p) (animationFrame p) (stream p) (monitoringEnabled p)
     (smoothedFrequency p) (smoothingFactor p).
Definition setMonitoringEnabled (v : bool) (p : t) : t :=
  mk (audioContext p) (analyser p) (microphone p) (gainNode p)
     (pitchDetector p) (animationFrame p) (stream p) v
     (smoothedFrequency p) (smoothingFactor p).
Definition setSmoothedFrequency (v : option Q) (p : t) : t :=
  mk (audioContext p) (analyser p) (microphone p) (gainNode p)
     (pitchDetector p) (animationFrame p) (stream p) (monitoringEnabled p)
     v (smoothingFactor p).

(** The state [start()] leaves when the microphone was granted: context at
    [sampleRate], analyser of 2048 samples, muted gain node, and the first
    animation frame requested. *)
Definition started (sampleRate : Q) (frame : positive) : t :=
  mk (Some sampleRate) (Some 2048%nat) (Some tt) (Some 0)
     (Some sampleRate) (Some frame) (Some tt) false None (3 # 10).

(** "Apply smoothing": the new value of [smoothedFrequency]. *)
Definition smooth (p : t) (frequency : Q) : Q :=
  match smoothedFrequency p with
  | None => frequency
  | Some s => s * (1 - smoothingFactor p) + frequency * smoothingFactor p
  end.

(** The body of [detect] from [if (frequency)] on: the new object and the
    argument of [onPitchUpdate].  A number is truthy unless it is [0]. *)
Definition publish (frequency : option Q) (p : t) : t * option Q :=
  match frequency with
  | Some f =>
      if negb (Qeq_bool f 0) then
        let s := smooth p f in
        (setSmoothedFrequency (Some s) p, Some s)
      else (setSmoothedFrequency None p, None)
  | None => (setSmoothedFrequency None p, None)
  end.

(** One run of [detect]: [dataArray] is what the analyser delivered,
    [frame] the handle [requestAnimationFrame] returns. *)
Definition detect (sqrt : Q -> Q) (dataArray : list Q) (frame : positive)
  (p : t) : option (t * option Q) :=
  match analyser p, pitchDetector p with
  | Some _, Some sampleRate =>
      let frequency :=
        Traced.value (PitchDetector.detectPitch sqrt sampleRate dataArray) in
      let (p', update) := publish frequency p in
      Some (setAnimationFrame (Some frame) p', update)
  | _, _ => None
  end.

(** [enableMonitoring()] and [disableMonitoring()]. *)
Definition enableMonitoring (p : t) : t :=
  if truthy (gainNode p)
  then setMonitoringEnabled true (setGainNode (Some (8 # 10)) p)
  else p.
Definition disableMonitoring (p : t) : t :=
  if truthy (gainNode p)
  then setMonitoringEnabled false (setGainNode (Some 0) p)
  else p.

(** One guarded teardown step of [stop()]:
    [if (this.x) { release; this.x = null; }]. *)
Definition release {X : Type} (field : t -> option X)
  (free : t -> Result unit) (clear : t -> t) (p : t) : Result t :=
  if truthy (field p)
  then bind (free p) (fun _ => ret (clear p))
  else ret p.

(** [stop()]. *)
Definition stop (p : t) : Result t :=
  bind (release animationFrame
          (fun p => match animationFrame p with
                    | Some id => platform (CancelAnimationFrame id)
                    | None => ret tt
                    end)
          (setAnimationFrame None) p) (fun p =>
  bind (release gainNode (fun p => invoke (gainNode p) DisconnectGain)
          (setGainNode None) p) (fun p =>
  bind (release microphone
          (fun p => invoke (microphone p) DisconnectMicrophone)
          (setMicrophone None) p) (fun p =>
  bind (release analyser (fun _ => ret tt) (setAnalyser None) p) (fun p =>
  bind (release stream (fun p => invoke (stream p) StopTracks)
          (setStream None) p) (fun p =>
  bind (release audioContext (fun p => invoke (audioContext p) CloseContext)
          (setAudioContext None) p) (fun p =>
  ret (setMonitoringEnabled false (setSmoothedFrequency None p)))))))).

Definition isMonitoringEnabled (p : t) : bool := monitoringEnabled p.

End AudioProcessor.

(** ** [VisualMetronome]: the handlers around the timer

    What the page does to the component between two renderings: the
    play button, the tempo buttons, the time-signature menu, the tab being
    hidden or shown, the component being removed, and the timer's own
    wake-ups.  The component's [currentBeat] is display state and, like
    rendering, left out. *)

Module MetronomePage.

Import VisualMetronome.

(** [saveSettings()]. *)
Definition saveSettings (c : t) : t :=
  mk (isActive c) (bpm c) (timeSignature c) (timer c)
     (Some (bpm c)) (Some (timeSignature c)).

(** [handleTimeSignatureChange(e)], [value] being [e.target.value]. *)
Definition handleTimeSignatureChange (value : string) (pg : Page) : Page :=
  let c := self pg in
  let c' :=
    saveSettings
      (mk (isActive c) (bpm c) value (timer c)
          (savedBpm c) (savedTimeSignature c)) in
  let pg' := mkPage (host pg) c' in
  match timer c' with
  | Some m =>
      onTimer (MetronomeTimer.updateTimeSignature (getBeatsPerMeasure c'))
        m pg'
  | None => pg'
  end.

(** [visibilityHandler()], [hidden] being [document.hidden]. *)
Definition visibilityHandler (hidden : bool) (pg : Page) : Page :=
  let c := self pg in
  match timer c with
  | Some m =>
      if hidden then
        if MetronomeTimer.isRunning m
        then onTimer MetronomeTimer.pause m pg
        else pg
      else
        if isActive c then onTimer MetronomeTimer.resume m pg else pg
  | None => pg
  end.

(** The timer part of [disconnectedCallback()]. *)
Definition disconnectedCallback (pg : Page) : Page :=
  match timer (self pg) with
  | Some m => onTimer MetronomeTimer.stop m pg
  | None => pg
  end.

(** The host runs the callback of handle [id]; the only callbacks on this
    host are the timer's. *)
Definition wakeUp (id : positive) (late : Q) (pg : Page) : Page :=
  match timer (self pg) with
  | Some m => onTimer (MetronomeTimer.fire id late) m pg
  | None => pg
  end.

Inductive Op : Type :=
| Toggle
| ChangeBpm (delta : Q)
| TimeSignature (value : string)
| Visibility (hidden : bool)
| Disconnect
| WakeUp (id : positive) (late : Q)
| Elapse (dt : Q).

Definition exec (o : Op) (pg : Page) : Page :=
  match o with
  | Toggle => toggleMetronome pg
  | ChangeBpm delta => changeBpm delta pg
  | TimeSignature value => handleTimeSignatureChange value pg
  | Visibility hidden => visibilityHandler hidden pg
  | Disconnect => disconnectedCallback pg
  | WakeUp id late => wakeUp id late pg
  | Elapse dt =>
      mkPage (Host.setNow (Host.now (host pg) + dt) (host pg)) (self pg)
  end.

Definition run (ops : list Op) (pg : Page) : Page :=
  fold_left (fun pg o => exec o pg) ops pg.

(** The component after its constructor, [loadSettings()] having found
    the tempo [bpm] and the time signature [timeSignature] (the defaults
    60 and "4/4" when nothing was saved). *)
Definition loaded (t0 bpm : Q) (timeSignature : string)
  (savedBpm : option Q) (savedTimeSignature : option string) : Page :=
  mkPage (Host.boot t0)
    (mk false bpm timeSignature None savedBpm savedTimeSignature).

(** What holds of the component and its timer between any two handlers. *)
Definition consistent (pg : Page) : Prop :=
  let c := self pg in
  match timer c with
  | None => isActive c = false /\ Host.pending (host pg) = []
  | Some m =>
      MetronomeTimer.bpm m = bpm c
      /\ MetronomeTimer.intervalMs m = 60 / bpm c * 1000
      /\ MetronomeTimer.beatsPerMeasure m = getBeatsPerMeasure c
      /\ (1 <= MetronomeTimer.currentBeat m
          <= MetronomeTimer.beatsPerMeasure m)%Z
      /\ (if MetronomeTimer.isRunning m
          then isActive c = true
               /\ exists id d,
                    MetronomeTimer.timeoutId m = Some id
                    /\ Host.pending (host pg) = [(id, d)]
          else Host.pending (host pg) = [])
  end.

(** [n] presses of a tempo button. *)
Definition presses (n : nat) (delta : Q) (pg : Page) : Page :=
  Nat.iter n (changeBpm delta) pg.

End MetronomePage.

(** ** [AudioProcessor]: runs of the analysis loop *)

Module Pipeline.

Import AudioProcessor.

(** Successive runs of [detect], one per animation frame: the buffers
    the analyser delivers and the frame handles.  The result is the
    object after the last run and what was handed to [onPitchUpdate],
    oldest first; [None] is a run that throws. *)
Fixpoint ticks (sqrt : Q -> Q) (frames : list (list Q * positive)) (p : t)
  : option (t * list (option Q)) :=
  match frames with
  | [] => Some (p, [])
  | (dataArray, frame) :: rest =>
      match detect sqrt dataArray frame p with
      | Some (p', update) =>
          match ticks sqrt rest p' with
          | Some (p'', updates) => Some (p'', update :: updates)
          | None => None
          end
      | None => None
      end
  end.

(** [n] updates of the smoothing in a row with the same frequency. *)
Definition updates (n : nat) (frequency : Q) (p : t) : t :=
  Nat.iter n (fun p => fst (publish (Some frequency) p)) p.

(** A published value: nothing, or a frequency from 60 to 1000. *)
Definition plausible (update : option Q) : Prop :=
  match update with
  | Some f => 60 <= f /\ f <= 1000
  | None => True
  end.

(** What the user can do to a pipeline between two frames. *)
Inductive Op : Type :=
| EnableMonitoring
| DisableMonitoring
| Publish (frequency : option Q)
| Stop.

Definition exec (o : Op) (p : t) : t :=
  match o with
  | EnableMonitoring => enableMonitoring p
  | DisableMonitoring => disableMonitoring p
  | Publish frequency => fst (publish frequency p)
  | Stop =>
      match stop p with
      | Returned p' _ => p'
      | Thrown _ => p
      end
  end.

Definition run (ops : list Op) (p : t) : t :=
  fold_left (fun p o => exec o p) ops p.

(** The monitor path agrees with the flag: gain 0.8 when monitoring is
    on, gain 0 or no gain node when it is off. *)
Definition monitorAgrees (p : t) : Prop :=
  match gainNode p with
  | Some gain => gain = if monitoringEnabled p then 8 # 10 else 0
  | None => monitoringEnabled p = false
  end.

End Pipeline.

(** ** [note-converter.js] *)

Module NoteConverter.

Definition NOTE_NAMES : list string :=
  ["C"; "C#"; "D"; "D#"; "E"; "F"; "F#"; "G"; "G#"; "A"; "A#"; "B"]%string.

Definition A4_FREQ : Q := 440.

(** [Math.round]: the nearest integer, halves upwards. *)
Definition round (x : Q) : Z := Qfloor (x + (1 # 2)).

(** An integer inside a template literal. *)
Definition showInt (n : Z) : string := NilZero.string_of_int (Z.to_int n).

(** [NOTE_NAMES[k]] inside a template literal: outside the array it is
    [undefined]. *)
Definition nameAt (k : Z) : string :=
  if (k <? 0)%Z then "undefined"%string
  else nth (Z.to_nat k) NOTE_NAMES "undefined"%string.

(** [NOTE_NAMES.indexOf(noteName)], [None] for [-1]. *)
Fixpoint indexOf (noteName : string) (names : list string) : option nat :=
  match names with
  | [] => None
  | name :: rest =>
      if String.eqb name noteName then Some 0%nat
      else option_map S (indexOf noteName rest)
  end.

Record Note : Type := mkNote {
  note : string;
  cents : Z;
  frequency : Q
}.

Section WithMath.

(** [Math.log2] and [x => Math.pow(2, x)], as the host computes them. *)
Variable log2 : Q -> Q.
Variable pow2 : Q -> Q.

(** [frequencyToNote(frequency)]; [null] is [None]. *)
Definition frequencyToNote (frequency : Q) : option Note :=
  if (Qeq_bool frequency 0 || Qltb frequency 20)%bool then None
  else
    let noteNum := 12 * log2 (frequency / A4_FREQ) + 69 in
    let roundedNote := round noteNum in
    let noteName := nameAt (Z.rem roundedNote 12) in
    let octave := (roundedNote / 12 - 1)%Z in
    let cents := round ((noteNum - inject_Z roundedNote) * 100) in
    Some (mkNote (noteName ++ showInt octave) cents frequency).

(** [noteToFrequency(noteName, octave)]. *)
Definition noteToFrequency (noteName : string) (octave : Z) : Q :=
  match indexOf noteName NOTE_NAMES with
  | None => 440
  | Some noteIndex =>
      let midiNote := ((octave + 1) * 12 + Z.of_nat noteIndex)%Z in
      A4_FREQ * pow2 ((inject_Z midiNote - 69) / 12)
  end.

End WithMath.

(** The inner loop of [generateReferenceNotes()] for one octave. *)
Fixpoint octaveNotes (octave : Z) (names : list string) : list string :=
  match names with
  | [] => []
  | noteName :: rest =>
      (noteName ++ showInt octave)%string
      :: (if (String.eqb noteName "C" && (octave =? 5)%Z)%bool then []
          else octaveNotes octave rest)
  end.

(** [generateReferenceNotes()]. *)
Definition generateReferenceNotes : list string :=
  flat_map (fun octave => octaveNotes octave NOTE_NAMES) [2; 3; 4; 5]%Z.

Record Parsed : Type := mkParsed {
  noteName : string;
  octave : Z
}.

(** The class [[A-G]]. *)
Definition isNoteLetter (c : ascii) : bool :=
  (Nat.leb 65 (nat_of_ascii c) && Nat.leb (nat_of_ascii c) 71)%bool.

(** [parseNoteString(noteString)]: the match of [/^([A-G]#?)(\d+)$/], a
    letter, an optional sharp and one or more decimal digits up to the
    end, the digits read by [parseInt]; without a match, A4. *)
Definition parseNoteString (noteString : string) : Parsed :=
  match noteString with
  | String c rest =>
      if isNoteLetter c then
        let (name, digits) :=
          match rest with
          | String c' rest' =>
              if Ascii.eqb c' "#" then (String c "#"%string, rest')
              else (String c EmptyString, rest)
          | EmptyString => (String c EmptyString, rest)
          end in
        match digits, NilEmpty.uint_of_string digits with
        | String _ _, Some d => mkParsed name (Z.of_uint d)
        | _, _ => mkParsed "A" 4
        end
      else mkParsed "A" 4
  | EmptyString => mkParsed "A" 4
  end.

(** Runnable stand-ins for the two functions of [Math], exact where the
    result is an integer power of two: bit length of the numerator less
    bit length of the denominator, and two to the integer part. *)
Definition log2Bits (q : Q) : Q :=
  inject_Z (Z.log2 (Qnum q) - Z.log2 (Zpos (Qden q))).

Definition pow2Floor (x : Q) : Q := 2 ^ Qfloor x.

End NoteConverter.

(** ** [VoiceMonitor]: the note display *)

Module VoiceMonitor.

(** The two properties [handlePitchUpdate] writes. *)
Record Display : Type := mkDisplay {
  currentNote : string;
  centsOff : Z
}.

(** The constructor's values. *)
Definition blank : Display := mkDisplay "--" 0.

(** [handlePitchUpdate(frequency)]; a number is truthy unless it is 0. *)
Definition handlePitchUpdate (log2 : Q -> Q) (frequency : option Q)
  (d : Display) : Display :=
  match frequency with
  | Some f =>
      if negb (Qeq_bool f 0) then
        match NoteConverter.frequencyToNote log2 f with
        | Some noteData =>
            mkDisplay (NoteConverter.note noteData)
              (NoteConverter.cents noteData)
        | None => d
        end
      else blank
  | None => blank
  end.

End VoiceMonitor.

(** ** [ReferencePlayer] *)

Module ReferencePlayer.

Inductive HostCall : Type :=
| CreateContext
| StartOscillator (frequency : Q)
| StopOscillator
| DisconnectOscillator
| DisconnectGain
| CloseContext.

(** The object: the context, the oscillator with its frequency, the gain
    node with its gain, present or [null]. *)
Record t : Type := mk {
  audioContext : option unit;
  oscillator : option Q;
  gainNode : option Q;
  isPlaying : bool
}.

(** The player on its host: the pending [setTimeout] handles are the
    auto-stops, [calls] what was asked of the platform, oldest first. *)
Record World : Type := mkWorld {
  host : Host.t;
  self : t;
  calls : list HostCall
}.

Definition create : t := mk None None None false.

(** [stop()].  [throws] tells whether [oscillator.stop()] throws; the
    [catch] swallows it and [disconnect()] is skipped. *)
Definition stop (throws : bool) (w : World) : World :=
  let p := self w in
  let calls1 :=
    match oscillator p with
    | Some _ =>
        if throws then [] else [StopOscillator; DisconnectOscillator]
    | None => []
    end in
  let calls2 :=
    match gainNode p with
    | Some _ => [DisconnectGain]
    | None => []
    end in
  let calls3 :=
    match audioContext p with
    | Some _ => [CloseContext]
    | None => []
    end in
  mkWorld (host w) (mk None None None false)
    (calls w ++ calls1 ++ calls2 ++ calls3).


(** The host runs the auto-stop with handle [id], when it is pending. *)
Definition fire (throws : bool) (id : positive) (w : World) : World :=
  match Host.due id (host w) with
  | Some d =>
      let h := Host.clearTimeout id (host w) in
      stop throws
        (mkWorld (Host.setNow (Qmax (Host.now h) d) h) (self w) (calls w))
  | None => w
  end.



End ReferencePlayer.

(** ** [headphone-detector.js] *)

Module HeadphoneDetector.

(** The two properties of a [MediaDeviceInfo] the code reads. *)
Record Device : Type := mkDevice {
  kind : string;
  label : string
}.

(** [s.startsWith(needle)]. *)
Fixpoint startsWith (needle s : string) : bool :=
  match needle, s with
  | EmptyString, _ => true
  | String a needle', String b s' =>
      (Ascii.eqb a b && startsWith needle' s')%bool
  | String _ _, EmptyString => false
  end.

(** [s.includes(needle)]. *)
Fixpoint includes (needle s : string) : bool :=
  (startsWith needle s
   || match s with
      | String _ s' => includes needle s'
      | EmptyString => false
      end)%bool.

Section WithLowerCase.

(** [String.prototype.toLowerCase]. *)
Variable toLowerCase : string -> string.

Definition mentionsHeadphones (device : Device) : bool :=
  let label := toLowerCase (label device) in
  (includes "headphone" label
   || includes "headset" label
   || includes "earphone" label
   || includes "airpods" label
   || includes "buds" label)%bool.

(** [detectHeadphones()]; [devices] is what [enumerateDevices()] resolved
    to, [None] when it rejected. *)
Definition detectHeadphones (devices : option (list Device)) : bool :=
  match devices with
  | Some devices =>
      let audioOutputs :=
        filter (fun device => String.eqb (kind device) "audiooutput")
          devices in
      let hasHeadphones := existsb mentionsHeadphones audioOutputs in
      let hasMultipleOutputs := Nat.ltb 1 (List.length audioOutputs) in
      (hasHeadphones || hasMultipleOutputs)%bool
  | None => false
  end.

(** [isBluetoothAudio(device)]. *)
Definition isBluetoothAudio (device : Device) : bool :=
  let label := toLowerCase (label device) in
  (includes "bluetooth" label
   || includes "wireless" label
   || includes "airpods" label
   || includes "buds" label)%bool.

End WithLowerCase.

(** Lower case for the letters A to Z, to run examples. *)
Fixpoint lowerAscii (s : string) : string :=
  match s with
  | EmptyString => EmptyString
  | String c s' =>
      let n := nat_of_ascii c in
      String
        (if (Nat.leb 65 n && Nat.leb n 90)%bool then ascii_of_nat (n + 32)
         else c)
        (lowerAscii s')
  end.

End HeadphoneDetector.

(** * Properties *)

(** ** Numbers and the trace monad *)

Lemma Qltb_lt (x y : Q) : Qltb x y = true <-> x < y.
Proof.
  unfold Qltb. rewrite negb_true_iff.
  split; intro H.
  - apply Qnot_le_lt. intro Hle. apply Qle_bool_iff in Hle. congruence.
  - destruct (Qle_bool y x) eqn:E; [|reflexivity].
    apply Qle_bool_iff in E. exfalso. apply (Qlt_not_le _ _ H E).
Qed.

Lemma Qabs_diff_le (x y A : Q) :
  Qabs x <= A -> Qabs y <= A -> Qabs (x - y) <= 2 * A.
Proof.
  intros Hx Hy. eapply Qle_trans.
  - unfold Qminus. apply Qabs_triangle.
  - rewrite Qabs_opp.
    set (a := Qabs x) in *. set (b := Qabs y) in *. lra.
Qed.

Lemma value_bind {A B : Type} (m : Traced.t A) (k : A -> Traced.t B) :
  Traced.value (Traced.bind m k) = Traced.value (k (Traced.value m)).
Proof.
  destruct m as [a l]. unfold Traced.bind, Traced.value. simpl.
  destruct (k a). reflexivity.
Qed.

Lemma divisors_bind {A B : Type} (m : Traced.t A) (k : A -> Traced.t B) :
  Traced.divisors (Traced.bind m k)
  = (Traced.divisors m ++ Traced.divisors (k (Traced.value m)))%list.
Proof.
  destruct m as [a l]. unfold Traced.bind, Traced.divisors, Traced.value.
  simpl. destruct (k a). reflexivity.
Qed.

(** ** The estimator *)

Section Estimator.

Import PitchDetector.

Lemma similarity_value (buffer : list Q) (M offset : nat) :
  Traced.value (similarity buffer M offset)
  = 1 - absDiffSum buffer M offset / inject_Z (Z.of_nat M).
Proof. reflexivity. Qed.

Lemma similarity_divisors (buffer : list Q) (M offset : nat) :
  Traced.divisors (similarity buffer M offset) = [Z.of_nat M].
Proof. reflexivity. Qed.

(** The running sum of the inner loop, from any starting value. *)
Lemma absDiff_fold_bounds (buffer : list Q) (offset : nat) (A : Q) :
  (forall i, Qabs (sample buffer i) <= A) ->
  forall (idx : list nat) (acc : Q),
    let total :=
      fold_left
        (fun correlation i =>
           correlation + Qabs (sample buffer i - sample buffer (i + offset)))
        idx acc in
    acc <= total /\ total <= acc + inject_Z (Z.of_nat (List.length idx)) * (2 * A).
Proof.
  intros HA idx. induction idx as [|i idx IH]; intros acc total.
  - subst total. cbn [fold_left List.length].
    change (inject_Z (Z.of_nat 0)) with 0. split; lra.
  - subst total. cbn [fold_left].
    specialize (IH (acc + Qabs (sample buffer i - sample buffer (i + offset)))).
    cbv zeta in IH. destruct IH as [IHlo IHhi].
    pose proof (Qabs_nonneg (sample buffer i - sample buffer (i + offset))) as H0.
    pose proof (Qabs_diff_le _ _ A (HA i) (HA (i + offset)%nat)) as Hstep.
    split; [lra|].
    eapply Qle_trans; [exact IHhi|].
    replace (List.length (i :: idx)) with (S (List.length idx)) by reflexivity.
    rewrite Nat2Z.inj_succ. unfold Z.succ. rewrite inject_Z_plus.
    change (inject_Z 1) with 1.
    set (n := inject_Z (Z.of_nat (List.length idx))).
    set (d := Qabs (sample buffer i - sample buffer (i + offset))) in *.
    assert (E : (n + 1) * (2 * A) == n * (2 * A) + 2 * A) by ring.
    rewrite E. lra.
Qed.

Lemma sample_bounded (buffer : list Q) (A : Q) :
  0 <= A ->
  Forall (fun x => Qabs x <= A) buffer ->
  forall i, Qabs (sample buffer i) <= A.
Proof.
  intros HA Hall i. unfold sample.
  destruct (Nat.lt_ge_cases i (List.length buffer)) as [Hlt|Hge].
  - rewrite Forall_forall in Hall. apply Hall. apply nth_In. exact Hlt.
  - rewrite nth_overflow by exact Hge. exact HA.
Qed.

Lemma absDiffSum_bounds (buffer : list Q) (M offset : nat) (A : Q) :
  (forall i, Qabs (sample buffer i) <= A) ->
  0 <= absDiffSum buffer M offset
  /\ absDiffSum buffer M offset <= inject_Z (Z.of_nat M) * (2 * A).
Proof.
  intros HA. unfold absDiffSum.
  pose proof (absDiff_fold_bounds buffer offset A HA (seq 0 M) 0) as H.
  cbv zeta in H. rewrite length_seq in H. destruct H as [Hlo Hhi].
  split; [exact Hlo|]. lra.
Qed.

Lemma mean_bounds (S A : Q) (M : nat) :
  (0 < M)%nat ->
  0 <= S -> S <= inject_Z (Z.of_nat M) * (2 * A) ->
  0 <= S / inject_Z (Z.of_nat M) /\ S / inject_Z (Z.of_nat M) <= 2 * A.
Proof.
  intros HM Hlo Hhi.
  assert (Hpos : 0 < inject_Z (Z.of_nat M)).
  { change 0 with (inject_Z 0). rewrite <- Zlt_Qlt. lia. }
  split.
  - apply Qle_shift_div_l; [exact Hpos|]. lra.
  - apply Qle_shift_div_r; [exact Hpos|]. lra.
Qed.

(** C2, as the code has it.  For every buffer and every lag from 1 up to
    N/2 (the loop visits those below N/2), the score
    [1 - mean |b[i] - b[i+offset]|] is at most [1] and, when every sample
    has absolute value at most [A], at least [1 - 2A]: it lies in [[0,1]]
    when the samples lie in [[-1/2, 1/2]], and in [[-1,1]] for samples in
    [[-1,1]]. *)
Theorem similarity_bounds (buffer : list Q) (offset : nat) (A : Q) :
  let MAX_SAMPLES := (List.length buffer / 2)%nat in
  let score := Traced.value (similarity buffer MAX_SAMPLES offset) in
  (1 <= offset <= MAX_SAMPLES)%nat ->
  Forall (fun x => Qabs x <= A) buffer ->
  1 - 2 * A <= score /\ score <= 1 /\ (A <= 1 # 2 -> 0 <= score).
Proof.
  intros M score Hoff Hall. subst score. rewrite similarity_value.
  assert (HM : (0 < M)%nat) by lia.
  assert (HA : 0 <= A).
  { destruct buffer as [|x rest].
    - subst M. simpl in HM. lia.
    - inversion Hall as [|? ? Hx _]; subst.
      eapply Qle_trans; [apply Qabs_nonneg | exact Hx]. }
  pose proof (sample_bounded buffer A HA Hall) as Hs.
  destruct (absDiffSum_bounds buffer M offset A Hs) as [Hlo Hhi].
  destruct (mean_bounds _ A M HM Hlo Hhi) as [Hm0 Hm1].
  set (mean := absDiffSum buffer M offset / inject_Z (Z.of_nat M)) in *.
  repeat split; intros; lra.
Qed.

(** Samples in [[-1/2, 1/2]]: the score of lag 1 is in [[0,1]]. *)
Lemma similarity_bounds_witness :
  let buffer := [1 # 2; - (1 # 2); 1 # 2; - (1 # 2)] in
  let score := Traced.value (similarity buffer 2 1) in
  1 - 2 * (1 # 2) <= score /\ score <= 1 /\ 0 <= score.
Proof.
  assert (Hoff : (1 <= 1 <= List.length [1 # 2; - (1 # 2); 1 # 2; - (1 # 2)] / 2)%nat)
    by (vm_compute; lia).
  assert (Hall : Forall (fun x => Qabs x <= 1 # 2)
                   [1 # 2; - (1 # 2); 1 # 2; - (1 # 2)]).
  { repeat constructor; vm_compute; discriminate. }
  destruct (similarity_bounds _ 1%nat (1 # 2) Hoff Hall) as [H1 [H2 H3]].
  repeat split; [exact H1 | exact H2 | apply H3; apply Qle_refl].
Defined.

(** C2 as stated fails: on the full-scale alternating buffer
    [1, -1, 1, -1] the score of lag 1 is [-1]. *)
Lemma similarity_below_zero :
  let buffer := [1; -1; 1; -1] in
  let MAX_SAMPLES := (List.length buffer / 2)%nat in
  (1 <= 1 <= MAX_SAMPLES)%nat
  /\ Traced.value (similarity buffer MAX_SAMPLES 1) == -1
  /\ ~ (0 <= Traced.value (similarity buffer MAX_SAMPLES 1)
        /\ Traced.value (similarity buffer MAX_SAMPLES 1) <= 1).
Proof.
  cbv zeta. split; [vm_compute; lia|]. split.
  - vm_compute. reflexivity.
  - intros [H0 _]. vm_compute in H0. apply H0. reflexivity.
Qed.

(** C4.  Whatever [autoCorrelate] produced, [detectPitch] hands it on
    only when it lies in [[60, 1000]], and reports [null] for everything
    outside. *)
Theorem detectPitch_in_range (sqrt : Q -> Q) (sampleRate : Q)
  (dataArray : list Q) :
  let produced := Traced.value (autoCorrelate sqrt sampleRate dataArray) in
  let reported := Traced.value (detectPitch sqrt sampleRate dataArray) in
  (forall frequency, reported = Some frequency ->
     frequency = produced /\ 60 <= frequency /\ frequency <= 1000)
  /\ (~ (60 <= produced /\ produced <= 1000) -> reported = None).
Proof.
  intros produced reported. subst reported. unfold detectPitch.
  rewrite value_bind. fold produced. clearbody produced.
  unfold Traced.ret, Traced.value. cbn [fst].
  destruct (Qltb 0 produced) eqn:E0; cbn [andb];
    [destruct (Qle_bool 60 produced) eqn:E1; cbn [andb];
     [destruct (Qle_bool produced 1000) eqn:E2|]|].
  - apply Qle_bool_iff in E1, E2. split.
    + intros f Hf. injection Hf as <-. auto.
    + intros Hn. exfalso. apply Hn. auto.
  - split; [discriminate | reflexivity].
  - split; [discriminate | reflexivity].
  - split; [discriminate | reflexivity].
Qed.

(** An 8-sample square wave of period 2 at a sample rate of 300: lag 2 is
    chosen, and the 150 Hz that [detectPitch] reports is in range. *)
Lemma detectPitch_in_range_witness :
  let dataArray := [1; 0; 1; 0; 1; 0; 1; 0] in
  Traced.value (detectPitch sqrtMilli 300 dataArray) = Some (300 # 2)
  /\ 60 <= 300 # 2 /\ 300 # 2 <= 1000.
Proof.
  cbv zeta. split; [vm_compute; reflexivity|].
  apply (proj1 (detectPitch_in_range sqrtMilli 300 [1; 0; 1; 0; 1; 0; 1; 0])
           (300 # 2)).
  vm_compute. reflexivity.
Defined.

(** C7.  When the root-mean-square amplitude of the buffer is below
    [0.01], [autoCorrelate] returns [-1] and [detectPitch] reports no
    pitch. *)
Theorem quiet_buffer_no_pitch (sqrt : Q -> Q) (sampleRate : Q)
  (buffer : list Q) (rms : Q) :
  Traced.value (rootMeanSquare sqrt buffer) = Some rms ->
  rms < 1 # 100 ->
  Traced.value (autoCorrelate sqrt sampleRate buffer) = -1
  /\ Traced.value (detectPitch sqrt sampleRate buffer) = None.
Proof.
  intros Hrms Hlt.
  assert (Hac : Traced.value (autoCorrelate sqrt sampleRate buffer) = -1).
  { unfold autoCorrelate. rewrite value_bind, Hrms.
    cbn [tooQuiet]. apply Qltb_lt in Hlt. rewrite Hlt. reflexivity. }
  split; [exact Hac|].
  unfold detectPitch. rewrite value_bind, Hac. reflexivity.
Qed.

(** Four samples of digital silence. *)
Lemma quiet_buffer_no_pitch_witness :
  Traced.value (autoCorrelate sqrtMilli 44100 [0; 0; 0; 0]) = -1
  /\ Traced.value (detectPitch sqrtMilli 44100 [0; 0; 0; 0]) = None.
Proof.
  apply (quiet_buffer_no_pitch sqrtMilli 44100 [0; 0; 0; 0] (0 # 1000)).
  - vm_compute. reflexivity.
  - vm_compute. reflexivity.
Defined.

(** The lag loop divides by [MAX_SAMPLES] once per offset, and by
    nothing else. *)
Lemma scanFrom_divisors (buffer : list Q) (M : nat) (offsets : list nat) :
  forall st,
    Traced.divisors (scanFrom buffer M offsets st)
    = repeat (Z.of_nat M) (List.length offsets).
Proof.
  induction offsets as [|offset rest IH]; intro st.
  - reflexivity.
  - cbn [scanFrom]. rewrite divisors_bind, IH.
    unfold scanStep. rewrite divisors_bind, similarity_divisors.
    reflexivity.
Qed.

(** [bestOffset] is only ever assigned an offset of the loop. *)
Lemma scanStep_bestOffset (buffer : list Q) (M : nat) (st : Scan)
  (offset : nat) :
  let st' := Traced.value (scanStep buffer M st offset) in
  bestOffset st' = bestOffset st \/ bestOffset st' = Z.of_nat offset.
Proof.
  cbv zeta. unfold scanStep. rewrite value_bind.
  unfold Traced.ret, Traced.value at 1. cbn [fst].
  destruct (Qltb (9 # 10) _ && Qltb (lastCorrelation st) _)%bool;
    [destruct (Qltb (bestCorrelation st) _)|]; cbn [bestOffset]; auto.
Qed.

Lemma scanFrom_bestOffset (buffer : list Q) (M : nat) (offsets : list nat) :
  forall st,
    let st' := Traced.value (scanFrom buffer M offsets st) in
    bestOffset st' = bestOffset st
    \/ exists offset, In offset offsets /\ bestOffset st' = Z.of_nat offset.
Proof.
  induction offsets as [|offset rest IH]; intro st; cbv zeta.
  - left. reflexivity.
  - cbn [scanFrom]. rewrite value_bind.
    specialize (IH (Traced.value (scanStep buffer M st offset))).
    cbv zeta in IH.
    destruct IH as [IH | [o [Hin Ho]]].
    + rewrite IH.
      destruct (scanStep_bestOffset buffer M st offset) as [H | H].
      * left. exact H.
      * right. exists offset. split; [left; reflexivity | exact H].
    + right. exists o. split; [right; exact Hin | exact Ho].
Qed.

(** The lag the loop settles on: none ([-1]), or one of [1 .. N/2 - 1]. *)
Lemma scan_bestOffset (buffer : list Q) :
  let lag := bestOffset (Traced.value (scan buffer)) in
  lag = (-1)%Z
  \/ (1 <= lag <= Z.of_nat (List.length buffer / 2) - 1)%Z.
Proof.
  cbv zeta. unfold scan.
  destruct (scanFrom_bestOffset buffer (List.length buffer / 2)
              (seq 1 (List.length buffer / 2 - 1)) (mkScan (-1) 0 1))
    as [H | [o [Hin Ho]]].
  - left. exact H.
  - right. rewrite Ho. apply in_seq in Hin. lia.
Qed.

Lemma scan_divisors (buffer : list Q) :
  Forall (fun d => d <> 0%Z) (Traced.divisors (scan buffer)).
Proof.
  unfold scan. rewrite scanFrom_divisors, length_seq.
  apply Forall_forall. intros d Hd.
  destruct (List.length buffer / 2)%nat as [|m].
  - simpl in Hd. contradiction.
  - apply repeat_spec in Hd. subst d. lia.
Qed.

(** C9, as the code has it.  On every non-empty buffer, a single sample
    and silence included, no division of [autoCorrelate] has divisor [0];
    and (on every buffer) the result is either [-1] or [sampleRate / lag]
    for the chosen lag, which lies in [1 .. N/2 - 1]. *)
Theorem autoCorrelate_divisions (sqrt : Q -> Q) (sampleRate : Q)
  (buffer : list Q) :
  let run := autoCorrelate sqrt sampleRate buffer in
  let lag := bestOffset (Traced.value (scan buffer)) in
  (buffer <> [] -> Forall (fun d => d <> 0%Z) (Traced.divisors run))
  /\ (Traced.value run = -1
      \/ ((1 <= lag <= Z.of_nat (List.length buffer / 2) - 1)%Z
          /\ Traced.value run = sampleRate / inject_Z lag)).
Proof.
  cbv zeta. unfold autoCorrelate. split.
  - intro Hne. rewrite divisors_bind. apply Forall_app. split.
    + unfold rootMeanSquare. rewrite divisors_bind.
      cbn [Traced.divide Traced.divisors Traced.ret Traced.value fst snd app].
      repeat constructor. destruct buffer; [congruence | simpl; lia].
    + destruct (tooQuiet _); [constructor|].
      rewrite divisors_bind. apply Forall_app. split; [apply scan_divisors|].
      destruct (Z.eqb_spec (bestOffset (Traced.value (scan buffer))) (-1))
        as [E | E]; [constructor|].
      cbn [Traced.divide Traced.divisors snd]. repeat constructor.
      destruct (scan_bestOffset buffer) as [H | H]; cbv zeta in H; lia.
  - rewrite value_bind.
    destruct (tooQuiet _); [left; reflexivity|].
    rewrite value_bind.
    destruct (Z.eqb_spec (bestOffset (Traced.value (scan buffer))) (-1))
      as [E | E]; [left; reflexivity|].
    right. split; [|reflexivity].
    destruct (scan_bestOffset buffer) as [H | H]; cbv zeta in H;
      [contradiction | exact H].
Qed.

(** The 8-sample square wave: divisors 8, 4, 4, 4 and the lag 2. *)
Lemma autoCorrelate_divisions_witness :
  let buffer := [1; 0; 1; 0; 1; 0; 1; 0] in
  Forall (fun d => d <> 0%Z)
    (Traced.divisors (autoCorrelate sqrtMilli 300 buffer)).
Proof.
  cbv zeta.
  apply (proj1 (autoCorrelate_divisions sqrtMilli 300
                  [1; 0; 1; 0; 1; 0; 1; 0])).
  discriminate.
Defined.

(** C9 as stated fails on the empty buffer: [rms / SIZE] is [0 / 0]. *)
Lemma autoCorrelate_empty_buffer :
  Traced.divisors (autoCorrelate sqrtMilli 44100 []) = [0%Z]
  /\ ~ Forall (fun d => d <> 0%Z)
        (Traced.divisors (autoCorrelate sqrtMilli 44100 [])).
Proof.
  split; [reflexivity|].
  intro H. inversion H as [|d l Hd _]; subst. apply Hd. reflexivity.
Qed.

(** A single sample, however loud: one division, by 1, and no pitch. *)
Example autoCorrelate_single_sample :
  autoCorrelate sqrtMilli 44100 [1] = (-1, [1%Z]).
Proof. reflexivity. Qed.

End Estimator.

(** ** The metronome timer *)

Section Timer.

Import MetronomeTimer.

Lemma tick_self (w : World) :
  bpm (self (tick w)) = bpm (self w)
  /\ beatsPerMeasure (self (tick w)) = beatsPerMeasure (self w)
  /\ intervalMs (self (tick w)) = intervalMs (self w)
  /\ expectedTime (self (tick w)) = expectedTime (self w)
  /\ currentBeat (self (tick w)) = currentBeat (self w)
  /\ isRunning (self (tick w)) = isRunning (self w).
Proof.
  unfold tick. destruct (isRunning (self w)) eqn:E; cbn; auto 10.
Qed.

Ltac tick_fields :=
  repeat match goal with
  | |- context [tick ?w] =>
      let H := fresh "Htick" in
      pose proof (tick_self w) as H;
      destruct H as (_ & -> & _ & _ & -> & _)
  end.

Lemma start_inCycle (w : World) : inCycle w -> inCycle (start w).
Proof.
  unfold inCycle, start. intro H.
  destruct (isRunning (self w)); [exact H|].
  tick_fields. cbn. lia.
Qed.

Lemma cancel_inCycle (w : World) : inCycle w -> inCycle (cancel w).
Proof.
  unfold inCycle, cancel. intro H.
  destruct (timeoutId (self w)); cbn; exact H.
Qed.

Lemma stop_inCycle (w : World) : inCycle w -> inCycle (stop w).
Proof.
  unfold inCycle, stop, cancel. intro H.
  destruct (timeoutId (self w)); cbn; lia.
Qed.

Lemma resume_inCycle (w : World) : inCycle w -> inCycle (resume w).
Proof.
  unfold inCycle, resume. intro H.
  destruct (isRunning (self w)); [exact H|].
  tick_fields. cbn. exact H.
Qed.

Lemma onTimeout_beat (w : World) :
  currentBeat (self (onTimeout w))
  = (if (currentBeat (self w) <? beatsPerMeasure (self w))%Z
     then (currentBeat (self w) + 1)%Z else 1%Z)
  /\ beatsPerMeasure (self (onTimeout w)) = beatsPerMeasure (self w).
Proof.
  unfold onTimeout. tick_fields. cbn.
  split; [|reflexivity].
  destruct (Z.ltb_spec (beatsPerMeasure (self w)) (currentBeat (self w) + 1));
    destruct (Z.ltb_spec (currentBeat (self w)) (beatsPerMeasure (self w)));
    lia.
Qed.

Lemma fire_inCycle (id : positive) (late : Q) (w : World) :
  inCycle w -> inCycle (fire id late w).
Proof.
  unfold inCycle, fire. intro H.
  destruct (Host.due id (host w)); [|exact H].
  match goal with |- context [onTimeout ?x] =>
    destruct (onTimeout_beat x) as [-> ->] end.
  cbn.
  destruct (Z.ltb_spec (currentBeat (self w)) (beatsPerMeasure (self w))); lia.
Qed.

Lemma exec_inCycle (o : Op) (w : World) :
  validOp o = true -> inCycle w -> inCycle (exec o w).
Proof.
  intros Hv H. destruct o; cbn [exec].
  - apply start_inCycle, H.
  - apply stop_inCycle, H.
  - apply cancel_inCycle, H.
  - apply resume_inCycle, H.
  - exact H.
  - cbn in Hv. apply Z.leb_le in Hv.
    unfold updateTimeSignature.
    destruct (isRunning (self w)).
    + apply start_inCycle, stop_inCycle. unfold inCycle. cbn. lia.
    + unfold inCycle. cbn. lia.
  - apply fire_inCycle, H.
  - exact H.
Qed.

Lemma run_inCycle (ops : list Op) :
  forall w,
    Forall (fun o => validOp o = true) ops -> inCycle w -> inCycle (run ops w).
Proof.
  induction ops as [|o ops IH]; intros w Hall H.
  - exact H.
  - inversion Hall as [|? ? Ho Hrest]; subst.
    unfold run. cbn [fold_left]. apply IH; [exact Hrest|].
    apply exec_inCycle; assumption.
Qed.

(** What one wake-up does to a timer that waits for it. *)
Lemma wake_armed (late : Q) (w : World) (id : positive) (d : Q) :
  armed w id d ->
  let m := self w in
  let now' := Qmax (Host.now (host w)) d + late in
  let expected' := num (expectedTime m) + intervalMs m in
  let beat' :=
    if (currentBeat m <? beatsPerMeasure m)%Z
    then (currentBeat m + 1)%Z else 1%Z in
  let id' := Host.nextHandle (host w) in
  let d' := now' + Qmax 0 (intervalMs m - (now' - expected')) in
  wake late w
  = mkWorld
      (Host.mk now' [(id', d')] (Pos.succ id')
         (Host.beats (host w) ++ [(beat', now')]))
      (mk (bpm m) (beatsPerMeasure m) (intervalMs m) (Some expected')
          (Some id') beat' true).
Proof.
  intros (Hrun & Hid & Hpend).
  destruct w as [[now pending next beats] [bpm bpc interval expected tid beat run]].
  cbn in Hrun, Hid, Hpend. subst run tid pending. cbv zeta.
  unfold wake, fire, Host.due. cbn.
  rewrite Pos.eqb_refl. cbn.
  destruct (Z.ltb_spec bpc (beat + 1)); destruct (Z.ltb_spec beat bpc);
    try lia; reflexivity.
Qed.

Lemma start_fresh_armed (t0 bpm : Q) (beats : Z) :
  exists d, armed (start (fresh t0 bpm beats)) 1%positive d.
Proof.
  eexists. repeat split.
Qed.

Lemma wakes_app (l1 l2 : list Q) :
  forall w, wakes (l1 ++ l2) w = wakes l2 (wakes l1 w).
Proof.
  induction l1 as [|late l1 IH]; intro w; [reflexivity|].
  cbn [app wakes]. apply IH.
Qed.

Lemma steady_S (n : nat) (w : World) :
  steady (S n) w = wake 0 (steady n w).
Proof.
  unfold steady.
  replace (repeat 0 (S n)) with (repeat 0 n ++ [0])%list.
  - rewrite wakes_app. reflexivity.
  - symmetry. change [0] with (repeat 0 1). rewrite <- repeat_app.
    f_equal. lia.
Qed.

Lemma cycle_S (beats : Z) (n : nat) :
  cycle beats (S n)
  = (cycle beats n ++ [(Z.of_nat n mod beats + 1)%Z])%list.
Proof.
  unfold cycle. rewrite seq_S, map_app. reflexivity.
Qed.

Lemma next_in_cycle (beats : Z) (k : nat) :
  (1 <= beats)%Z ->
  (if (Z.of_nat k mod beats + 1 <? beats)%Z
   then (Z.of_nat k mod beats + 1 + 1)%Z else 1%Z)
  = (Z.of_nat (S k) mod beats + 1)%Z.
Proof.
  intro Hb. rewrite Nat2Z.inj_succ. unfold Z.succ.
  pose proof (Z.mod_pos_bound (Z.of_nat k) beats ltac:(lia)) as Hr.
  pose proof (Z.div_mod (Z.of_nat k) beats ltac:(lia)) as Hk.
  destruct (Z.ltb_spec (Z.of_nat k mod beats + 1) beats) as [Hlt | Hge].
  - assert (E : ((Z.of_nat k + 1) mod beats
                 = Z.of_nat k mod beats + 1)%Z).
    { symmetry. apply (Z.mod_unique _ _ (Z.of_nat k / beats)); lia. }
    rewrite E. reflexivity.
  - assert (E : ((Z.of_nat k + 1) mod beats = 0)%Z).
    { symmetry. apply (Z.mod_unique _ _ (Z.of_nat k / beats + 1)); lia. }
    rewrite E. reflexivity.
Qed.

(** The beats a started timer calls out, wake-up after wake-up. *)
Lemma wakes_beatNumbers (beats : Z) (lates : list Q) :
  (1 <= beats)%Z ->
  forall (w : World) (k : nat) (id : positive) (d : Q),
    armed w id d ->
    beatsPerMeasure (self w) = beats ->
    currentBeat (self w) = (Z.of_nat k mod beats + 1)%Z ->
    beatNumbers w = cycle beats (S k) ->
    beatNumbers (wakes lates w) = cycle beats (S k + List.length lates).
Proof.
  intro Hb. induction lates as [|late rest IH]; intros w k id d Ha Hbpc Hc Hn.
  - cbn [wakes List.length]. rewrite Nat.add_0_r. exact Hn.
  - cbn [wakes List.length].
    pose proof (wake_armed late w id d Ha) as Hw. cbv zeta in Hw.
    rewrite Hbpc, Hc, (next_in_cycle beats k Hb) in Hw.
    replace (S k + S (List.length rest))%nat
      with (S (S k) + List.length rest)%nat by lia.
    eapply IH.
    + rewrite Hw. repeat split.
    + rewrite Hw. reflexivity.
    + rewrite Hw. reflexivity.
    + rewrite Hw. unfold beatNumbers in *. cbn [host Host.beats].
      rewrite map_app, Hn, (cycle_S beats (S k)). reflexivity.
Qed.

(** C5.  From a fresh timer with at least one beat per measure, after any
    sequence of start, stop, pause, resume, tempo and time-signature
    changes, wake-ups and waiting, the beat index is in
    [1 .. beatsPerMeasure]; a wake-up moves it one up, or back to 1 from
    the last beat of the measure; and with four beats per measure a
    started timer calls out 1, 2, 3, 4, 1, 2, 3, 4, ... *)
Theorem beat_index_in_cycle (t0 bpm : Q) (beats : Z) (ops : list Op) :
  (1 <= beats)%Z ->
  Forall (fun o => validOp o = true) ops ->
  let w := run ops (fresh t0 bpm beats) in
  (1 <= getCurrentBeat w <= beatsPerMeasure (self w))%Z
  /\ (forall id late d,
        Host.due id (host w) = Some d ->
        getCurrentBeat (fire id late w)
        = if (getCurrentBeat w <? beatsPerMeasure (self w))%Z
          then (getCurrentBeat w + 1)%Z else 1%Z)
  /\ (forall lates,
        beatNumbers (wakes lates (start (fresh t0 bpm 4)))
        = cycle 4 (S (List.length lates))).
Proof.
  intros Hb Hops w. split; [|split].
  - apply (run_inCycle ops (fresh t0 bpm beats) Hops).
    unfold inCycle. cbn. lia.
  - intros id late d Hdue. unfold fire, getCurrentBeat. rewrite Hdue.
    match goal with |- context [onTimeout ?x] =>
      destruct (onTimeout_beat x) as [-> _] end.
    reflexivity.
  - intro lates.
    destruct (start_fresh_armed t0 bpm 4) as [d Ha].
    apply (wakes_beatNumbers 4 lates ltac:(lia) _ 0%nat 1%positive d Ha);
      reflexivity.
Qed.

(** Started in 4/4, two wake-ups, switched to 8/8, paused, resumed, one
    more wake-up: the beat index is 2 of 8. *)
Lemma beat_index_in_cycle_witness :
  let w :=
    run [Start; Fire 1 0; Fire 2 0; UpdateTimeSignature 8; Pause; Resume;
         Fire 4 0] (fresh 0 60 4) in
  (1 <= getCurrentBeat w <= beatsPerMeasure (self w))%Z.
Proof.
  cbv zeta.
  apply (proj1 (beat_index_in_cycle 0 60 4
                  [Start; Fire 1 0; Fire 2 0; UpdateTimeSignature 8; Pause;
                   Resume; Fire 4 0]
                  ltac:(lia) ltac:(repeat constructor))).
Defined.

Example four_four_two_measures :
  beatNumbers (steady 7 (start (fresh 0 60 4)))
  = [1; 2; 3; 4; 1; 2; 3; 4]%Z.
Proof. vm_compute. reflexivity. Qed.

(** *** Fire times at tempo 60 *)

Lemma start_fresh_world (t0 bpm : Q) (beats : Z) :
  let interval := (60 / bpm) * 1000 in
  start (fresh t0 bpm beats)
  = mkWorld
      (Host.mk t0
         [(1%positive,
           t0 + Qmax 0 (interval - (t0 - (t0 + interval))))]
         2%positive [(1%Z, t0)])
      (mk bpm beats interval (Some (t0 + interval)) (Some 1%positive)
          1%Z true).
Proof. reflexivity. Qed.

Lemma count_S (n : nat) :
  inject_Z (Z.of_nat (S n)) == inject_Z (Z.of_nat n) + 1.
Proof.
  rewrite Nat2Z.inj_succ. unfold Z.succ. rewrite inject_Z_plus. reflexivity.
Qed.

(** After [n] wake-ups on a clock without jitter, a timer started at [t0]
    with tempo 60 has its clock-side quantities here: the wake-up it waits
    for is due at [t0 + (n + 2) * 1000], and beat [k + 1] for [k >= 1]
    was called out at [t0 + (k + 1) * 1000]. *)
Lemma steady_timing (t0 : Q) (beats : Z) (n : nat) :
  let w := steady n (start (fresh t0 60 beats)) in
  exists id d e,
    armed w id d
    /\ expectedTime (self w) = Some e
    /\ intervalMs (self w) == 1000
    /\ e == t0 + (inject_Z (Z.of_nat n) + 1) * 1000
    /\ d == t0 + (inject_Z (Z.of_nat n) + 2) * 1000
    /\ Host.now (host w) <= d
    /\ List.length (beatTimes w) = S n
    /\ nth 0 (beatTimes w) 0 = t0
    /\ (forall k, (1 <= k <= n)%nat ->
          nth k (beatTimes w) 0 == t0 + (inject_Z (Z.of_nat k) + 1) * 1000).
Proof.
  cbv zeta. induction n as [|n IH].
  - unfold steady. cbn [repeat wakes]. rewrite start_fresh_world. cbv zeta.
    assert (HI : 60 / 60 * 1000 == 1000) by reflexivity.
    set (interval := 60 / 60 * 1000) in *.
    eexists. eexists. eexists.
    split; [repeat split|]. split; [reflexivity|].
    cbn [self host intervalMs Host.now beatTimes Host.beats map snd nth
         List.length].
    change (inject_Z (Z.of_nat 0)) with 0.
    assert (Hd : Qmax 0 (interval - (t0 - (t0 + interval))) == 2000).
    { rewrite Q.max_r; lra. }
    split; [exact HI|]. split; [lra|].
    split; [rewrite Hd; lra|]. split; [rewrite Hd; lra|].
    split; [reflexivity|]. split; [reflexivity|].
    intros k Hk. lia.
  - destruct IH as (id & d & e & Ha & He & HI & Hee & Hd & Hnow & Hlen & H0 & Hk).
    rewrite steady_S.
    set (w := steady n (start (fresh t0 60 beats))) in *.
    rewrite (wake_armed 0 w id d Ha). cbv zeta. rewrite He. cbn [num].
    set (interval := intervalMs (self w)) in *.
    set (now := Host.now (host w)) in *.
    assert (Hnow' : Qmax now d + 0 == d) by (rewrite Q.max_r; [lra | exact Hnow]).
    assert (Hdelay :
      Qmax 0 (interval - (Qmax now d + 0 - (e + interval))) == 1000).
    { rewrite Q.max_r; rewrite Hnow'; lra. }
    eexists. eexists. eexists.
    split; [repeat split|]. split; [reflexivity|].
    unfold beatTimes in *. cbn [self host intervalMs Host.now Host.beats].
    rewrite map_app. cbn [map snd].
    rewrite count_S.
    split; [exact HI|]. split; [lra|].
    split; [rewrite Hdelay, Hnow'; lra|]. split; [rewrite Hdelay; lra|].
    split; [rewrite length_app, Hlen; cbn; lia|].
    split; [rewrite app_nth1 by lia; exact H0|].
    intros k Hkr.
    destruct (Nat.eq_dec k (S n)) as [-> | Hne].
    + rewrite app_nth2 by lia. rewrite Hlen, Nat.sub_diag. cbn [nth].
      rewrite Hnow', count_S. lra.
    + rewrite app_nth1 by lia. apply Hk. lia.
Qed.

(** C1, what the code does.  Started at tempo 60 at time [t0], on a clock
    without jitter and for any number of beats per measure, beat 1 is
    called out at [t0] and every later beat [n >= 2] at [t0 + n * 1000]:
    one whole interval after the [t0 + (n - 1) * 1000] of the claim. *)
Theorem beat_times_at_tempo_60 (t0 : Q) (beats : Z) (wakeups n : nat) :
  (2 <= n <= wakeups + 1)%nat ->
  let times := beatTimes (steady wakeups (start (fresh t0 60 beats))) in
  nth 0 times 0 = t0
  /\ nth (n - 1) times 0 == t0 + inject_Z (Z.of_nat n) * 1000.
Proof.
  intros Hn times. subst times.
  destruct (steady_timing t0 beats wakeups)
    as (id & d & e & _ & _ & _ & _ & _ & _ & _ & H0 & Hk).
  split; [exact H0|].
  rewrite (Hk (n - 1)%nat) by lia.
  replace (Z.of_nat n) with (Z.of_nat (n - 1) + 1)%Z by lia.
  rewrite inject_Z_plus. reflexivity.
Qed.

(** Started at time 0: beat 2 is called out at 2000 ms. *)
Lemma beat_times_at_tempo_60_witness :
  nth 0 (beatTimes (steady 1 (start (fresh 0 60 4)))) 0 = 0
  /\ nth 1 (beatTimes (steady 1 (start (fresh 0 60 4)))) 0
     == 0 + inject_Z (Z.of_nat 2) * 1000.
Proof.
  apply (beat_times_at_tempo_60 0 4 1 2). lia.
Defined.

(** The second beat of a timer started at time 0 with tempo 60: at
    2000 ms, while [expectedTime] was set to 1000 ms by [start()]. *)
Example second_beat_at_2000 :
  expectedTime (self (start (fresh 0 60 4))) = Some (0 + 60 / 60 * 1000)
  /\ nth 1 (beatTimes (steady 1 (start (fresh 0 60 4)))) 0 == 2000
  /\ ~ nth 1 (beatTimes (steady 1 (start (fresh 0 60 4)))) 0 == (2 - 1) * 1000.
Proof.
  split; [reflexivity|]. split.
  - vm_compute. reflexivity.
  - vm_compute. discriminate.
Qed.

(** C10.  On a running timer [start()] and [resume()] return at once:
    the timer object and the host (clock, pending wake-ups, beats called
    out) are what they were. *)
Theorem start_resume_while_running (w : World) :
  getIsRunning w = true ->
  start w = w /\ resume w = w.
Proof.
  unfold getIsRunning, start, resume. intros ->. split; reflexivity.
Qed.

Lemma start_resume_while_running_witness :
  start (start (fresh 0 60 4)) = start (fresh 0 60 4)
  /\ resume (start (fresh 0 60 4)) = start (fresh 0 60 4).
Proof.
  apply (start_resume_while_running (start (fresh 0 60 4))). reflexivity.
Defined.

End Timer.

(** ** Tempo bounds *)

Section Tempo.

Lemma clamp_in_range (x : Q) :
  20 <= Qmax 20 (Qmin 150 x) /\ Qmax 20 (Qmin 150 x) <= 150.
Proof.
  split.
  - apply Q.le_max_l.
  - apply Q.max_lub.
    + discriminate.
    + apply Q.le_min_l.
Qed.

(** C3 as stated fails: [updateBPM] keeps the tempo it is given.  A
    running timer told 500 beats per minute has tempo 500 and beats every
    120 ms. *)
Lemma updateBPM_out_of_bounds :
  let w :=
    MetronomeTimer.updateBPM 500
      (MetronomeTimer.start (MetronomeTimer.fresh 0 60 4)) in
  MetronomeTimer.bpm (MetronomeTimer.self w) = 500
  /\ ~ (20 <= MetronomeTimer.bpm (MetronomeTimer.self w)
        /\ MetronomeTimer.bpm (MetronomeTimer.self w) <= 150)
  /\ MetronomeTimer.intervalMs (MetronomeTimer.self w) == 120.
Proof.
  cbv zeta. split; [reflexivity|]. split.
  - intros [_ H]. vm_compute in H. apply H. reflexivity.
  - vm_compute. reflexivity.
Qed.

(** C3, as the code has it.  [updateBPM] stores the tempo it is given and
    derives the interval from it.  The bounding is done by its caller,
    [VisualMetronome.changeBpm]: afterwards the component's tempo is
    [max(20, min(150, bpm + delta))], inside [[20, 150]], and a timer that
    agreed with the component before has that tempo and the interval
    [60 / tempo * 1000]. *)
Theorem changeBpm_clamps (delta : Q) (pg : VisualMetronome.Page) :
  let c := VisualMetronome.self pg in
  let pg' := VisualMetronome.changeBpm delta pg in
  let tempo := VisualMetronome.bpm (VisualMetronome.self pg') in
  (forall newBpm w,
     MetronomeTimer.bpm (MetronomeTimer.self (MetronomeTimer.updateBPM newBpm w))
     = newBpm
     /\ MetronomeTimer.intervalMs
          (MetronomeTimer.self (MetronomeTimer.updateBPM newBpm w))
        = 60 / newBpm * 1000)
  /\ tempo == Qmax 20 (Qmin 150 (VisualMetronome.bpm c + delta))
  /\ 20 <= tempo /\ tempo <= 150
  /\ (forall m,
        VisualMetronome.timer c = Some m ->
        MetronomeTimer.bpm m == VisualMetronome.bpm c ->
        MetronomeTimer.intervalMs m == 60 / MetronomeTimer.bpm m * 1000 ->
        exists m',
          VisualMetronome.timer (VisualMetronome.self pg') = Some m'
          /\ MetronomeTimer.bpm m' == tempo
          /\ MetronomeTimer.intervalMs m' == 60 / tempo * 1000).
Proof.
  cbv zeta. split; [intros; split; reflexivity|].
  destruct pg as [h [active bpm sig tm sb ss]].
  unfold VisualMetronome.changeBpm. cbn [VisualMetronome.self VisualMetronome.bpm
    VisualMetronome.timer VisualMetronome.host VisualMetronome.isActive
    VisualMetronome.timeSignature].
  destruct (clamp_in_range (bpm + delta)) as [Hlo Hhi].
  set (newBpm := Qmax 20 (Qmin 150 (bpm + delta))) in *.
  destruct (Qeq_bool newBpm bpm) eqn:E; cbn [negb].
  - apply Qeq_bool_iff in E.
    cbn [VisualMetronome.self VisualMetronome.bpm VisualMetronome.timer].
    split; [symmetry; exact E|].
    split; [rewrite <- E; exact Hlo|].
    split; [rewrite <- E; exact Hhi|].
    intros m -> Hm Hi. exists m.
    split; [reflexivity|]. split; [exact Hm|].
    rewrite Hi, Hm. reflexivity.
  - destruct tm as [m|].
    + cbn. fold newBpm.
      split; [reflexivity|]. split; [exact Hlo|]. split; [exact Hhi|].
      intros m0 _ _ _. eexists. split; [reflexivity|].
      cbn. split; reflexivity.
    + cbn. fold newBpm.
      split; [reflexivity|]. split; [exact Hlo|]. split; [exact Hhi|].
      intros m0 Hm0. discriminate.
Qed.

(** A started metronome at the default tempo 60, asked for 500 more: the
    component and its timer end up at tempo 150. *)
Lemma changeBpm_clamps_witness :
  let pg :=
    VisualMetronome.toggleMetronome
      (VisualMetronome.mkPage (Host.boot 0) VisualMetronome.create) in
  exists m',
    VisualMetronome.timer
      (VisualMetronome.self (VisualMetronome.changeBpm 500 pg)) = Some m'
    /\ MetronomeTimer.bpm m'
       == VisualMetronome.bpm
            (VisualMetronome.self (VisualMetronome.changeBpm 500 pg))
    /\ MetronomeTimer.intervalMs m'
       == 60 / VisualMetronome.bpm
                 (VisualMetronome.self (VisualMetronome.changeBpm 500 pg))
          * 1000.
Proof.
  cbv zeta.
  refine (proj2 (proj2 (proj2 (proj2
    (changeBpm_clamps 500
       (VisualMetronome.toggleMetronome
          (VisualMetronome.mkPage (Host.boot 0) VisualMetronome.create))))))
    _ _ _ _).
  - vm_compute. reflexivity.
  - vm_compute. reflexivity.
  - vm_compute. reflexivity.
Defined.

Example changeBpm_to_upper_bound :
  VisualMetronome.bpm
    (VisualMetronome.self
       (VisualMetronome.changeBpm 500
          (VisualMetronome.toggleMetronome
             (VisualMetronome.mkPage (Host.boot 0) VisualMetronome.create))))
  == 150.
Proof. vm_compute. reflexivity. Qed.

End Tempo.

(** ** The pipeline *)

Section Pipeline.

Import AudioProcessor.

(** C6.  After a reset (a run of the loop without pitch) the next update
    with a frequency [x] publishes exactly [x] and stores it; and when the
    stored value already is [x], the update stores and publishes a value
    equal to [x].  [x] is truthy, as every frequency [detectPitch] reports
    (at least 60) is. *)
Theorem smoothing_update (p : t) (x : Q) :
  ~ x == 0 ->
  let cleared := fst (publish None p) in
  smoothedFrequency cleared = None
  /\ publish (Some x) cleared = (setSmoothedFrequency (Some x) cleared, Some x)
  /\ (forall s,
        smoothedFrequency p = Some s -> s == x ->
        exists s',
          publish (Some x) p = (setSmoothedFrequency (Some s') p, Some s')
          /\ s' == x).
Proof.
  intros Hx cleared.
  assert (Ht : negb (Qeq_bool x 0) = true).
  { destruct (Qeq_bool x 0) eqn:E; [|reflexivity].
    apply Qeq_bool_iff in E. contradiction. }
  split; [reflexivity|]. split.
  - unfold publish at 1. rewrite Ht. reflexivity.
  - intros s Hs Hsx. unfold publish. rewrite Ht.
    unfold smooth. rewrite Hs. eexists. split; [reflexivity|].
    rewrite Hsx. ring.
Qed.

(** A running pipeline and the concert pitch 440 Hz. *)
Lemma smoothing_update_witness :
  publish (Some 440) (fst (publish None (started 44100 1)))
  = (setSmoothedFrequency (Some 440) (fst (publish None (started 44100 1))),
     Some 440).
Proof.
  apply (smoothing_update (started 44100 1) 440). discriminate.
Defined.

Example smoothing_same_value_twice :
  let p1 := fst (publish (Some 440) (started 44100 1)) in
  smoothedFrequency p1 = Some 440
  /\ exists s', smoothedFrequency (fst (publish (Some 440) p1)) = Some s'
                /\ s' == 440.
Proof.
  cbv zeta. split; [reflexivity|].
  eexists. split; [reflexivity|]. vm_compute. reflexivity.
Qed.

(** C8.  A second [stop()] in a row changes nothing and throws nothing,
    for the pipeline (it returns the same object and makes no host call)
    and for the timer (same timer, same host); and [stop()] on an object
    that was never started returns it as it is. *)
Theorem stop_twice :
  (forall p,
     exists p' calls,
       stop p = Returned p' calls /\ stop p' = Returned p' [])
  /\ stop create = Returned create []
  /\ (forall w, MetronomeTimer.stop (MetronomeTimer.stop w)
                = MetronomeTimer.stop w)
  /\ (forall t0 bpm beats,
        MetronomeTimer.stop (MetronomeTimer.fresh t0 bpm beats)
        = MetronomeTimer.fresh t0 bpm beats).
Proof.
  split; [|split; [|split]].
  - intros [ctx an mic gain det frame str mon sm alpha].
    destruct frame, gain, mic, an, str, ctx;
      eexists; eexists; split; reflexivity.
  - reflexivity.
  - intros [h [bpm bpc interval expected tid beat run]].
    destruct tid; reflexivity.
  - reflexivity.
Qed.

Example stop_started_pipeline :
  stop (started 44100 7)
  = Returned
      (mk None None None None (Some 44100) None None false None (3 # 10))
      [CancelAnimationFrame 7; DisconnectGain; DisconnectMicrophone;
       StopTracks; CloseContext].
Proof. reflexivity. Qed.

End Pipeline.

(** * Further properties of the estimator *)

Section EstimatorMore.

Import PitchDetector.

Lemma Qdiv_antitone (s a b : Q) :
  0 < s -> 0 < a -> a <= b -> s / b <= s / a.
Proof.
  intros Hs Ha Hab.
  assert (Hb : 0 < b) by lra.
  apply Qle_shift_div_r; [exact Hb|].
  assert (Hk : 0 <= s / a).
  { apply Qle_shift_div_l; [exact Ha|]. lra. }
  assert (E : s / a * a == s) by (field; lra).
  set (k := s / a) in *. nra.
Qed.

Lemma absDiff_fold_nonneg (buffer : list Q) (offset : nat) (idx : list nat) :
  forall acc,
    acc <= fold_left
             (fun correlation i =>
                correlation
                + Qabs (sample buffer i - sample buffer (i + offset)))
             idx acc.
Proof.
  induction idx as [|i idx IH]; intro acc; cbn [fold_left].
  - apply Qle_refl.
  - eapply Qle_trans; [|apply IH].
    pose proof (Qabs_nonneg (sample buffer i - sample buffer (i + offset))).
    lra.
Qed.

Lemma similarity_le_1 (buffer : list Q) (M offset : nat) :
  Traced.value (similarity buffer M offset) <= 1.
Proof.
  rewrite similarity_value.
  pose proof (absDiff_fold_nonneg buffer offset (seq 0 M) 0) as Hs.
  fold (absDiffSum buffer M offset) in Hs.
  assert (Hq : 0 <= absDiffSum buffer M offset / inject_Z (Z.of_nat M)).
  { apply Qmult_le_0_compat; [exact Hs|].
    apply Qinv_le_0_compat. change 0 with (inject_Z 0).
    rewrite <- Zle_Qle. lia. }
  lra.
Qed.

(** A lag whose predecessor scored [1] or more is not taken. *)
Lemma scanStep_after_full_score (buffer : list Q) (M : nat) (st : Scan)
  (offset : nat) :
  1 <= lastCorrelation st ->
  bestOffset (Traced.value (scanStep buffer M st offset)) = bestOffset st.
Proof.
  intro Hlast. unfold scanStep. rewrite value_bind.
  unfold Traced.ret, Traced.value at 1. cbn [fst].
  pose proof (similarity_le_1 buffer M offset) as Hle.
  assert (E : Qltb (lastCorrelation st)
                (Traced.value (similarity buffer M offset)) = false).
  { unfold Qltb. rewrite negb_false_iff. apply Qle_bool_iff. lra. }
  rewrite E, andb_false_r. reflexivity.
Qed.

(** The lag the loop settles on is never 1. *)
Lemma scan_bestOffset_from_2 (buffer : list Q) :
  let lag := bestOffset (Traced.value (scan buffer)) in
  lag = (-1)%Z
  \/ (2 <= lag <= Z.of_nat (List.length buffer / 2) - 1)%Z.
Proof.
  cbv zeta. unfold scan.
  destruct (List.length buffer / 2 - 1)%nat as [|k] eqn:Ek.
  - left. reflexivity.
  - cbn [seq scanFrom]. rewrite value_bind.
    pose proof (scanStep_after_full_score buffer (List.length buffer / 2)
                  (mkScan (-1) 0 1) 1%nat (Qle_refl 1)) as H1.
    cbn [bestOffset] in H1.
    destruct (scanFrom_bestOffset buffer (List.length buffer / 2) (seq 2 k)
                (Traced.value
                   (scanStep buffer (List.length buffer / 2)
                      (mkScan (-1) 0 1) 1)))
      as [H | [o [Hin Ho]]]; cbv zeta in *.
    + left. rewrite H. exact H1.
    + right. rewrite Ho. apply in_seq in Hin. lia.
Qed.

(** The value of [autoCorrelate], by cases on the lag. *)
Lemma autoCorrelate_value (sqrt : Q -> Q) (sampleRate : Q)
  (buffer : list Q) :
  let lag := bestOffset (Traced.value (scan buffer)) in
  Traced.value (autoCorrelate sqrt sampleRate buffer) = -1
  \/ (lag <> (-1)%Z
      /\ Traced.value (autoCorrelate sqrt sampleRate buffer)
         = sampleRate / inject_Z lag).
Proof.
  cbv zeta. unfold autoCorrelate. rewrite value_bind.
  destruct (tooQuiet _); [left; reflexivity|].
  rewrite value_bind.
  destruct (Z.eqb_spec (bestOffset (Traced.value (scan buffer))) (-1))
    as [E | E]; [left; reflexivity|].
  right. split; [exact E | reflexivity].
Qed.

(** X1.  The lag behind a returned frequency is at least 2: with a
    positive sample rate, [autoCorrelate] returns [-1] or a frequency
    between [sampleRate / (N/2 - 1)] and [sampleRate / 2]. *)
Theorem autoCorrelate_frequency_band (sqrt : Q -> Q) (sampleRate : Q)
  (buffer : list Q) :
  0 < sampleRate ->
  let result := Traced.value (autoCorrelate sqrt sampleRate buffer) in
  let top := (Z.of_nat (List.length buffer / 2) - 1)%Z in
  result = -1
  \/ exists lag,
       (2 <= lag <= top)%Z
       /\ result = sampleRate / inject_Z lag
       /\ sampleRate / inject_Z top <= result
       /\ result <= sampleRate / 2.
Proof.
  intros Hsr result top. subst result top.
  destruct (autoCorrelate_value sqrt sampleRate buffer) as [H | [Hne H]];
    [left; exact H|].
  right. cbv zeta in *.
  destruct (scan_bestOffset_from_2 buffer) as [Hl | Hl]; cbv zeta in Hl;
    [contradiction|].
  set (lag := bestOffset (Traced.value (scan buffer))) in *.
  exists lag. split; [exact Hl|]. split; [exact H|]. rewrite H.
  assert (Hlag : 0 < inject_Z lag).
  { change 0 with (inject_Z 0). rewrite <- Zlt_Qlt. lia. }
  assert (Htop : 0 < inject_Z (Z.of_nat (List.length buffer / 2) - 1)%Z).
  { change 0 with (inject_Z 0). rewrite <- Zlt_Qlt. lia. }
  assert (H2 : 2 <= inject_Z lag).
  { change 2 with (inject_Z 2). rewrite <- Zle_Qle. lia. }
  assert (Hlt : inject_Z lag
                <= inject_Z (Z.of_nat (List.length buffer / 2) - 1)%Z).
  { rewrite <- Zle_Qle. lia. }
  split.
  - apply Qdiv_antitone; assumption.
  - apply Qdiv_antitone; [exact Hsr | reflexivity | exact H2].
Qed.

(** The 8-sample square wave at a sample rate of 300: 150 Hz. *)
Lemma autoCorrelate_frequency_band_witness :
  let result :=
    Traced.value (autoCorrelate sqrtMilli 300 [1; 0; 1; 0; 1; 0; 1; 0]) in
  result = -1
  \/ exists lag,
       (2 <= lag <= 3)%Z
       /\ result = 300 / inject_Z lag
       /\ 300 / inject_Z 3 <= result
       /\ result <= 300 / 2.
Proof.
  apply (autoCorrelate_frequency_band sqrtMilli 300 [1; 0; 1; 0; 1; 0; 1; 0]).
  reflexivity.
Defined.

(** X2.  A buffer of fewer than six samples never yields a pitch, and six
    samples can. *)
Theorem short_buffer_no_pitch (sqrt : Q -> Q) (sampleRate : Q)
  (buffer : list Q) :
  (List.length buffer < 6)%nat ->
  Traced.value (autoCorrelate sqrt sampleRate buffer) = -1
  /\ Traced.value (detectPitch sqrt sampleRate buffer) = None
  /\ Traced.value (detectPitch sqrtMilli 300 [1; 0; 1; 0; 1; 0])
     = Some (300 # 2).
Proof.
  intro Hlen.
  assert (Hac : Traced.value (autoCorrelate sqrt sampleRate buffer) = -1).
  { destruct (autoCorrelate_value sqrt sampleRate buffer) as [H | [Hne H]];
      [exact H|].
    cbv zeta in Hne.
    destruct (scan_bestOffset_from_2 buffer) as [Hl | Hl]; cbv zeta in Hl;
      [contradiction|].
    assert (List.length buffer / 2 < 3)%nat.
    { apply Nat.Div0.div_lt_upper_bound. lia. }
    lia. }
  split; [exact Hac|]. split.
  - unfold detectPitch. rewrite value_bind, Hac. reflexivity.
  - reflexivity.
Qed.

Lemma short_buffer_no_pitch_witness :
  Traced.value (autoCorrelate sqrtMilli 300 [1; 0; 1; 0; 1]) = -1.
Proof.
  apply (short_buffer_no_pitch sqrtMilli 300 [1; 0; 1; 0; 1]).
  vm_compute. lia.
Defined.

Lemma Qltb_comp (x x' y y' : Q) :
  x == x' -> y == y' -> Qltb x y = Qltb x' y'.
Proof.
  intros Hx Hy. unfold Qltb. rewrite Hx, Hy. reflexivity.
Qed.

Lemma fold_sum_ext (f g : nat -> Q) (idx : list nat) :
  (forall i, In i idx -> f i == g i) ->
  forall acc acc',
    acc == acc' ->
    fold_left (fun a i => a + f i) idx acc
    == fold_left (fun a i => a + g i) idx acc'.
Proof.
  induction idx as [|i idx IH]; intros Hfg acc acc' Hacc; cbn [fold_left].
  - exact Hacc.
  - apply IH.
    + intros j Hj. apply Hfg. right. exact Hj.
    + rewrite Hacc, (Hfg i (or_introl eq_refl)). reflexivity.
Qed.

Lemma fold_sum_zero (idx : list nat) :
  forall acc, fold_left (fun a (_ : nat) => a + 0) idx acc == acc.
Proof.
  induction idx as [|i idx IH]; intro acc; cbn [fold_left].
  - reflexivity.
  - rewrite IH. ring.
Qed.

Lemma scanStep_value (buffer : list Q) (M : nat) (st : Scan)
  (offset : nat) :
  Traced.value (scanStep buffer M st offset)
  = let correlation :=
      1 - absDiffSum buffer M offset / inject_Z (Z.of_nat M) in
    if (Qltb (9 # 10) correlation
        && Qltb (lastCorrelation st) correlation)%bool
    then
      if Qltb (bestCorrelation st) (correlation - lastCorrelation st)
      then mkScan (Z.of_nat offset) (correlation - lastCorrelation st)
             correlation
      else mkScan (bestOffset st) (bestCorrelation st) correlation
    else mkScan (bestOffset st) (bestCorrelation st) correlation.
Proof. reflexivity. Qed.

(** Two states of the lag loop that agree up to the value of their
    numbers. *)
Lemma scanStep_ext (b1 b2 : list Q) (M : nat) (st1 st2 : Scan)
  (offset : nat) :
  absDiffSum b1 M offset == absDiffSum b2 M offset ->
  bestOffset st1 = bestOffset st2 ->
  bestCorrelation st1 == bestCorrelation st2 ->
  lastCorrelation st1 == lastCorrelation st2 ->
  let r1 := Traced.value (scanStep b1 M st1 offset) in
  let r2 := Traced.value (scanStep b2 M st2 offset) in
  bestOffset r1 = bestOffset r2
  /\ bestCorrelation r1 == bestCorrelation r2
  /\ lastCorrelation r1 == lastCorrelation r2.
Proof.
  intros Hsum Ho Hb Hl. cbv zeta. rewrite !scanStep_value. cbv zeta.
  set (c1 := 1 - absDiffSum b1 M offset / inject_Z (Z.of_nat M)).
  set (c2 := 1 - absDiffSum b2 M offset / inject_Z (Z.of_nat M)).
  assert (Hc : c1 == c2) by (subst c1 c2; rewrite Hsum; reflexivity).
  rewrite (Qltb_comp (9 # 10) (9 # 10) c1 c2 (Qeq_refl _) Hc).
  rewrite (Qltb_comp _ _ c1 c2 Hl Hc).
  assert (Hf : c1 - lastCorrelation st1 == c2 - lastCorrelation st2)
    by (rewrite Hc, Hl; reflexivity).
  rewrite (Qltb_comp _ _ _ _ Hb Hf).
  destruct (Qltb (9 # 10) c2 && Qltb (lastCorrelation st2) c2)%bool;
    [destruct (Qltb (bestCorrelation st2) (c2 - lastCorrelation st2))|];
    cbn [bestOffset bestCorrelation lastCorrelation];
    (split; [|split]); first [assumption | reflexivity].
Qed.

Lemma scanFrom_ext (b1 b2 : list Q) (M : nat) (offsets : list nat) :
  (forall o, In o offsets -> absDiffSum b1 M o == absDiffSum b2 M o) ->
  forall st1 st2,
    bestOffset st1 = bestOffset st2 ->
    bestCorrelation st1 == bestCorrelation st2 ->
    lastCorrelation st1 == lastCorrelation st2 ->
    bestOffset (Traced.value (scanFrom b1 M offsets st1))
    = bestOffset (Traced.value (scanFrom b2 M offsets st2)).
Proof.
  induction offsets as [|o rest IH]; intros Hsum st1 st2 Ho Hb Hl.
  - exact Ho.
  - cbn [scanFrom]. rewrite !value_bind.
    destruct (scanStep_ext b1 b2 M st1 st2 o
                (Hsum o (or_introl eq_refl)) Ho Hb Hl) as (Ho' & Hb' & Hl').
    apply IH; [|assumption..].
    intros o' Hin. apply Hsum. right. exact Hin.
Qed.

Lemma sample_in_range (buffer : list Q) (c : Q) (i : nat) :
  Forall (fun x => x == c) buffer ->
  (i < List.length buffer)%nat ->
  sample buffer i == c.
Proof.
  intros Hall Hi. rewrite Forall_forall in Hall. apply Hall.
  unfold sample. apply nth_In. exact Hi.
Qed.

(** On a buffer of equal samples every lag of the loop scores [1]. *)
Lemma absDiffSum_constant (buffer : list Q) (c : Q) (offset : nat) :
  Forall (fun x => x == c) buffer ->
  (offset < List.length buffer / 2)%nat ->
  absDiffSum buffer (List.length buffer / 2) offset == 0.
Proof.
  intros Hall Ho. unfold absDiffSum.
  rewrite (fold_sum_ext _ (fun _ => 0) _) with (acc' := 0);
    [apply fold_sum_zero | | reflexivity].
  intros i Hi. apply in_seq in Hi.
  assert (Hdiv : (2 * (List.length buffer / 2) <= List.length buffer)%nat)
    by (apply Nat.Div0.mul_div_le).
  rewrite (sample_in_range buffer c i Hall) by lia.
  rewrite (sample_in_range buffer c (i + offset) Hall) by lia.
  setoid_replace (c - c) with 0 by ring. reflexivity.
Qed.

Lemma scanFrom_full_scores (buffer : list Q) (M : nat) (offsets : list nat) :
  (forall o, In o offsets -> absDiffSum buffer M o == 0) ->
  forall st,
    1 <= lastCorrelation st ->
    bestOffset (Traced.value (scanFrom buffer M offsets st)) = bestOffset st.
Proof.
  induction offsets as [|o rest IH]; intros Hsum st Hlast.
  - reflexivity.
  - cbn [scanFrom]. rewrite value_bind. rewrite IH.
    + apply scanStep_after_full_score. exact Hlast.
    + intros o' Hin. apply Hsum. right. exact Hin.
    + rewrite scanStep_value. cbv zeta.
      assert (Hc : 1 - absDiffSum buffer M o / inject_Z (Z.of_nat M) == 1).
      { rewrite (Hsum o (or_introl eq_refl)). unfold Qdiv. ring. }
      destruct (Qltb (9 # 10) _ && Qltb (lastCorrelation st) _)%bool;
        [destruct (Qltb (bestCorrelation st) _)|];
        cbn [lastCorrelation]; rewrite Hc; apply Qle_refl.
Qed.

(** X3.  A buffer whose samples are all equal, however loud, yields no
    pitch: every lag scores 1 and none beats its predecessor. *)
Theorem constant_buffer_no_pitch (sqrt : Q -> Q) (sampleRate : Q)
  (buffer : list Q) (c : Q) :
  Forall (fun x => x == c) buffer ->
  Traced.value (autoCorrelate sqrt sampleRate buffer) = -1
  /\ Traced.value (detectPitch sqrt sampleRate buffer) = None.
Proof.
  intro Hall.
  assert (Hac : Traced.value (autoCorrelate sqrt sampleRate buffer) = -1).
  { destruct (autoCorrelate_value sqrt sampleRate buffer) as [H | [Hne H]];
      [exact H|].
    exfalso. apply Hne. unfold scan.
    apply (scanFrom_full_scores buffer (List.length buffer / 2)
             (seq 1 (List.length buffer / 2 - 1))).
    - intros o Ho. apply in_seq in Ho.
      apply (absDiffSum_constant buffer c o Hall). lia.
    - apply Qle_refl. }
  split; [exact Hac|].
  unfold detectPitch. rewrite value_bind, Hac. reflexivity.
Qed.

(** Eight samples at full scale. *)
Lemma constant_buffer_no_pitch_witness :
  Traced.value (autoCorrelate sqrtMilli 44100 [1; 1; 1; 1; 1; 1; 1; 1]) = -1
  /\ Traced.value (detectPitch sqrtMilli 44100 [1; 1; 1; 1; 1; 1; 1; 1])
     = None.
Proof.
  apply (constant_buffer_no_pitch sqrtMilli 44100 [1; 1; 1; 1; 1; 1; 1; 1] 1).
  repeat constructor.
Defined.

Lemma sample_opp (buffer : list Q) (i : nat) :
  sample (map Qopp buffer) i = - sample buffer i.
Proof.
  unfold sample. change 0 with (- 0) at 1. apply map_nth.
Qed.

Lemma absDiffSum_opp (buffer : list Q) (M offset : nat) :
  absDiffSum (map Qopp buffer) M offset == absDiffSum buffer M offset.
Proof.
  unfold absDiffSum. apply fold_sum_ext; [|reflexivity].
  intros i _. rewrite !sample_opp.
  setoid_replace (- sample buffer i - - sample buffer (i + offset))
    with (- (sample buffer i - sample buffer (i + offset))) by ring.
  apply Qabs_opp.
Qed.

Lemma sum_squares_opp (buffer : list Q) :
  forall acc acc',
    acc == acc' ->
    fold_left (fun rms val => rms + val * val) (map Qopp buffer) acc
    == fold_left (fun rms val => rms + val * val) buffer acc'.
Proof.
  induction buffer as [|x rest IH]; intros acc acc' Hacc; cbn [map fold_left].
  - exact Hacc.
  - apply IH. rewrite Hacc. ring.
Qed.

(** X4.  Polarity does not matter: the buffer with every sample negated
    gives the same result, for any [Math.sqrt] that maps equal numbers to
    equal numbers. *)
Theorem autoCorrelate_polarity (sqrt : Q -> Q) (sampleRate : Q)
  (buffer : list Q) :
  (forall x y, x == y -> sqrt x == sqrt y) ->
  Traced.value (autoCorrelate sqrt sampleRate (map Qopp buffer))
  = Traced.value (autoCorrelate sqrt sampleRate buffer)
  /\ Traced.value (detectPitch sqrt sampleRate (map Qopp buffer))
     = Traced.value (detectPitch sqrt sampleRate buffer).
Proof.
  intro Hsqrt.
  assert (Hac :
    Traced.value (autoCorrelate sqrt sampleRate (map Qopp buffer))
    = Traced.value (autoCorrelate sqrt sampleRate buffer)).
  { unfold autoCorrelate. rewrite !value_bind.
    assert (Hq :
      tooQuiet (Traced.value (rootMeanSquare sqrt (map Qopp buffer)))
      = tooQuiet (Traced.value (rootMeanSquare sqrt buffer))).
    { unfold rootMeanSquare. rewrite !value_bind.
      unfold Traced.ret, Traced.divide, Traced.value. cbn [fst].
      rewrite length_map.
      destruct (Nat.eqb (List.length buffer) 0); [reflexivity|].
      cbn [tooQuiet]. apply Qltb_comp; [|reflexivity].
      apply Hsqrt. rewrite (sum_squares_opp buffer 0 0 (Qeq_refl 0)).
      reflexivity. }
    rewrite Hq.
    destruct (tooQuiet (Traced.value (rootMeanSquare sqrt buffer)));
      [reflexivity|].
    rewrite !value_bind.
    assert (Hl : bestOffset (Traced.value (scan (map Qopp buffer)))
                 = bestOffset (Traced.value (scan buffer))).
    { unfold scan. rewrite length_map.
      apply scanFrom_ext; try reflexivity.
      intros o _. apply absDiffSum_opp. }
    rewrite Hl. reflexivity. }
  split; [exact Hac|].
  unfold detectPitch. rewrite !value_bind, Hac. reflexivity.
Qed.

Lemma sqrtMilli_comp (x y : Q) : x == y -> sqrtMilli x == sqrtMilli y.
Proof.
  intro H. unfold sqrtMilli. rewrite H. reflexivity.
Qed.

Lemma autoCorrelate_polarity_witness :
  Traced.value
    (autoCorrelate sqrtMilli 300 (map Qopp [1; 0; 1; 0; 1; 0; 1; 0]))
  = Traced.value (autoCorrelate sqrtMilli 300 [1; 0; 1; 0; 1; 0; 1; 0]).
Proof.
  apply (autoCorrelate_polarity sqrtMilli 300 [1; 0; 1; 0; 1; 0; 1; 0]).
  exact sqrtMilli_comp.
Defined.

End EstimatorMore.

(** * Further properties of the metronome timer *)

Section TimerMore.

Import MetronomeTimer.

(** A running timer waits for exactly one wake-up, the one whose handle
    it holds; a timer that is not running waits for none. *)
Lemma exec_pending (o : Op) (w : World) :
  (if isRunning (self w)
   then exists id d, armed w id d
   else Host.pending (host w) = []) ->
  (if isRunning (self (exec o w))
   then exists id d, armed (exec o w) id d
   else Host.pending (host (exec o w)) = []).
Proof.
  destruct w as [[now pending next beats]
                 [bpm bpc interval expected tid beat run]].
  cbn [self host isRunning Host.pending]. intro H.
  destruct run.
  - destruct H as (id & d & Hrun & Hid & Hpend).
    cbn in Hid, Hpend. subst tid pending.
    destruct o; cbn; rewrite ?Pos.eqb_refl; cbn;
      try (eexists; eexists; repeat split; fail);
      try reflexivity.
    unfold fire, Host.due. cbn.
    destruct (Pos.eqb_spec id id0) as [<- | Hne]; cbn.
    + rewrite ?Pos.eqb_refl. cbn. eexists. eexists. repeat split.
    + eexists. eexists. repeat split.
  - subst pending.
    destruct o; cbn; try reflexivity;
      try (eexists; eexists; repeat split; fail);
      destruct tid; cbn; reflexivity.
Qed.

(** X5.  From a fresh timer, after any sequence of operations, wake-ups
    and waiting: while the timer runs exactly one wake-up is pending, the
    one in [timeoutId]; while it does not run (never started, paused or
    stopped) no wake-up is pending. *)
Theorem pending_wakeups (t0 bpm : Q) (beats : Z) (ops : list Op) :
  let w := run ops (fresh t0 bpm beats) in
  (getIsRunning w = true ->
     exists id d,
       timeoutId (self w) = Some id /\ Host.pending (host w) = [(id, d)])
  /\ (getIsRunning w = false -> Host.pending (host w) = []).
Proof.
  cbv zeta.
  assert (H : forall w,
             (if isRunning (self w)
              then exists id d, armed w id d
              else Host.pending (host w) = []) ->
             if isRunning (self (run ops w))
             then exists id d, armed (run ops w) id d
             else Host.pending (host (run ops w)) = []).
  { induction ops as [|o ops IH]; intros w Hw; [exact Hw|].
    unfold run. cbn [fold_left]. apply IH. apply exec_pending. exact Hw. }
  specialize (H (fresh t0 bpm beats) eq_refl).
  unfold getIsRunning.
  destruct (isRunning (self (run ops (fresh t0 bpm beats)))).
  - split; [|discriminate]. intros _.
    destruct H as (id & d & _ & Hid & Hp). exists id, d. split; assumption.
  - split; [discriminate|]. intros _. exact H.
Qed.

Lemma wakes_snoc (lates : list Q) (late : Q) (w : World) :
  wakes (lates ++ [late]) w = wake late (wakes lates w).
Proof. rewrite wakes_app. reflexivity. Qed.

(** The clock-side state of a started timer after some wake-ups, each of
    them late by at most one interval. *)
Lemma jitter_timing (t0 bpm : Q) (beats : Z) (lates : list Q) :
  let interval := 60 / bpm * 1000 in
  0 < bpm ->
  Forall (fun late => 0 <= late /\ late <= interval) lates ->
  let w := wakes lates (start (fresh t0 bpm beats)) in
  let n := inject_Z (Z.of_nat (List.length lates)) in
  exists id d e,
    armed w id d
    /\ expectedTime (self w) = Some e
    /\ intervalMs (self w) = interval
    /\ e == t0 + (n + 1) * interval
    /\ d == t0 + (n + 2) * interval
    /\ Host.now (host w) <= d
    /\ List.length (beatTimes w) = S (List.length lates)
    /\ nth 0 (beatTimes w) 0 = t0
    /\ (forall k, (1 <= k <= List.length lates)%nat ->
          nth k (beatTimes w) 0
          == t0 + (inject_Z (Z.of_nat k) + 1) * interval
             + nth (k - 1) lates 0).
Proof.
  cbv zeta. intro Hbpm.
  assert (Hpos : 0 < 60 / bpm * 1000).
  { assert (0 < 60 / bpm) by (apply Qlt_shift_div_l; [exact Hbpm | lra]).
    lra. }
  induction lates as [|late lates IH] using rev_ind; intro Hall.
  - cbn [wakes List.length]. rewrite start_fresh_world. cbv zeta.
    set (interval := 60 / bpm * 1000) in *.
    eexists. eexists. eexists.
    split; [repeat split|]. split; [reflexivity|]. split; [reflexivity|].
    cbn [self host intervalMs Host.now Host.beats].
    unfold beatTimes. cbn [host Host.beats map snd nth List.length].
    change (inject_Z (Z.of_nat 0)) with 0.
    assert (Hm : Qmax 0 (interval - (t0 - (t0 + interval)))
                 == 2 * interval) by (rewrite Q.max_r; lra).
    split; [lra|]. split; [rewrite Hm; lra|]. split; [rewrite Hm; lra|].
    split; [reflexivity|]. split; [reflexivity|]. intros k Hk. lia.
  - apply Forall_app in Hall. destruct Hall as [Hall Hlate].
    inversion Hlate as [|? ? [Hlo Hhi] _]; subst.
    destruct (IH Hall)
      as (id & d & e & Ha & He & HI & Hee & Hd & Hnow & Hlen & H0 & Hk).
    rewrite wakes_snoc.
    set (w := wakes lates (start (fresh t0 bpm beats))) in *.
    rewrite (wake_armed late w id d Ha). cbv zeta. rewrite He, HI.
    cbn [num].
    set (interval := 60 / bpm * 1000) in *.
    set (now := Host.now (host w)) in *.
    rewrite length_app. cbn [List.length]. rewrite Nat.add_1_r.
    assert (Hnow' : Qmax now d + late == d + late)
      by (rewrite Q.max_r; [reflexivity | exact Hnow]).
    assert (Hdelay :
      Qmax 0 (interval - (Qmax now d + late - (e + interval)))
      == interval - late).
    { rewrite Q.max_r; rewrite Hnow'; lra. }
    eexists. eexists. eexists.
    split; [repeat split|]. split; [reflexivity|]. split; [reflexivity|].
    unfold beatTimes in *. cbn [self host intervalMs Host.now Host.beats].
    rewrite map_app. cbn [map snd].
    rewrite count_S.
    split; [lra|].
    split; [rewrite Hdelay, Hnow'; lra|]. split; [rewrite Hdelay; lra|].
    split; [rewrite length_app, Hlen; cbn; lia|].
    split; [rewrite app_nth1 by lia; exact H0|].
    intros k Hkr.
    destruct (Nat.eq_dec k (S (List.length lates))) as [-> | Hne].
    + rewrite app_nth2 by lia. rewrite Hlen, Nat.sub_diag. cbn [nth].
      rewrite app_nth2 by lia.
      replace (S (List.length lates) - 1 - List.length lates)%nat
        with 0%nat by lia.
      cbn [nth]. rewrite Hnow', count_S. lra.
    + rewrite app_nth1 by lia. rewrite app_nth1 by lia. apply Hk. lia.
Qed.

(** X6.  Lateness does not add up.  At any tempo, when every wake-up
    runs late by at most one interval, beat [k + 1] ([k >= 1]) is called
    out at [t0 + (k + 1) * interval] plus the lateness of its own wake-up
    alone: what earlier wake-ups lost is made up. *)
Theorem lateness_does_not_add_up (t0 bpm : Q) (beats : Z)
  (lates : list Q) (k : nat) :
  0 < bpm ->
  Forall (fun late => 0 <= late /\ late <= 60 / bpm * 1000) lates ->
  (1 <= k <= List.length lates)%nat ->
  nth k (beatTimes (wakes lates (start (fresh t0 bpm beats)))) 0
  == t0 + (inject_Z (Z.of_nat k) + 1) * (60 / bpm * 1000)
     + nth (k - 1) lates 0.
Proof.
  intros Hbpm Hall Hk.
  destruct (jitter_timing t0 bpm beats lates Hbpm Hall)
    as (id & d & e & _ & _ & _ & _ & _ & _ & _ & _ & H).
  apply H. exact Hk.
Qed.

(** Tempo 120 (500 ms): wake-ups late by 40, 0 and 500 ms; the third of
    them calls out beat 4 at 2000 + 500 ms. *)
Lemma lateness_does_not_add_up_witness :
  nth 3 (beatTimes (wakes [40 # 1; 0; 500 # 1] (start (fresh 0 120 4)))) 0
  == 0 + (inject_Z (Z.of_nat 3) + 1) * (60 / 120 * 1000)
     + nth (3 - 1) [40 # 1; 0; 500 # 1] 0.
Proof.
  apply (lateness_does_not_add_up 0 120 4 [40 # 1; 0; 500 # 1] 3).
  - reflexivity.
  - repeat constructor; discriminate.
  - cbn. lia.
Defined.

(** X7.  Pausing and resuming a running timer calls out no beat and
    keeps the beat index; the timer is waiting for one wake-up again, and
    that wake-up calls out the beat the interrupted one would have. *)
Theorem pause_resume_keeps_place (w : World) (id : positive) (d late : Q) :
  armed w id d ->
  let w' := resume (pause w) in
  getCurrentBeat w' = getCurrentBeat w
  /\ Host.beats (host w') = Host.beats (host w)
  /\ (exists id' d', armed w' id' d')
  /\ beatNumbers (wake late w') = beatNumbers (wake late w)
  /\ getCurrentBeat (wake late w') = getCurrentBeat (wake late w).
Proof.
  intros (Hrun & Hid & Hpend).
  destruct w as [[now pending next beats]
                 [bpm bpc interval expected tid beat run]].
  cbn in Hrun, Hid, Hpend. subst run tid pending. cbv zeta.
  unfold pause, cancel, resume, tick, wake, fire, Host.due, getCurrentBeat,
    beatNumbers.
  cbn. rewrite !Pos.eqb_refl. cbn. rewrite !Pos.eqb_refl. cbn.
  split; [reflexivity|]. split; [reflexivity|].
  split; [eexists; eexists; repeat split|].
  split; [rewrite !map_app; reflexivity | reflexivity].
Qed.

Lemma pause_resume_keeps_place_witness :
  getCurrentBeat
    (resume (pause (steady 2 (start (fresh 0 60 4)))))
  = getCurrentBeat (steady 2 (start (fresh 0 60 4))).
Proof.
  refine (proj1 (pause_resume_keeps_place
                   (steady 2 (start (fresh 0 60 4))) 3%positive _ 0 _)).
  repeat split.
Defined.

(** X8.  A tempo change on a running timer neither cancels nor re-arms
    the wake-up that is pending and calls out no beat.  On a clock
    without jitter the next beat comes when it was due before the change,
    the one after it three new intervals after the change, and from then
    on the beats are one new interval apart. *)
Theorem tempo_change_timing (w : World) (id : positive) (d newBpm : Q) :
  armed w id d ->
  0 < newBpm ->
  let changed := Host.now (host w) in
  let interval := 60 / newBpm * 1000 in
  changed <= d ->
  d <= changed + 3 * interval ->
  let w1 := updateBPM newBpm w in
  Host.pending (host w1) = [(id, d)]
  /\ Host.beats (host w1) = Host.beats (host w)
  /\ exists t1 t2 t3,
       beatTimes (wake 0 (wake 0 (wake 0 w1)))
       = (beatTimes w ++ [t1; t2; t3])%list
       /\ t1 == d
       /\ t2 == changed + 3 * interval
       /\ t3 == changed + 4 * interval.
Proof.
  intros (Hrun & Hid & Hpend) Hbpm.
  destruct w as [[now pending next beats]
                 [tempo bpc interval0 expected tid beat run]].
  cbn in Hrun, Hid, Hpend. subst run tid pending. cbv zeta.
  cbn [host Host.now]. intros Hnow Hd.
  assert (Hpos : 0 < 60 / newBpm * 1000).
  { assert (0 < 60 / newBpm) by (apply Qlt_shift_div_l; [exact Hbpm | lra]).
    lra. }
  unfold updateBPM. cbn [self host isRunning Host.now Host.pending Host.beats
    beatsPerMeasure timeoutId currentBeat].
  set (interval := 60 / newBpm * 1000) in *.
  split; [reflexivity|]. split; [reflexivity|].
  match goal with |- context [wake 0 (wake 0 (wake 0 ?x))] =>
    rewrite (wake_armed 0 x id d) by (repeat split) end.
  cbv zeta. cbn [self host Host.now Host.nextHandle Host.beats expectedTime
    intervalMs num bpm beatsPerMeasure currentBeat].
  match goal with |- context [wake 0 (wake 0 ?x)] =>
    erewrite (wake_armed 0 x next) by (repeat split) end.
  cbv zeta. cbn [self host Host.now Host.nextHandle Host.beats expectedTime
    intervalMs num bpm beatsPerMeasure currentBeat].
  match goal with |- context [wake 0 ?x] =>
    erewrite (wake_armed 0 x (Pos.succ next)) by (repeat split) end.
  cbv zeta. cbn [self host Host.now Host.nextHandle Host.beats expectedTime
    intervalMs num bpm beatsPerMeasure currentBeat].
  unfold beatTimes. cbn [host Host.beats].
  rewrite <- !app_assoc. rewrite map_app. cbn [app map snd].
  eexists. eexists. eexists. split; [reflexivity|].
  assert (H1 : Qmax now d + 0 == d) by (rewrite Q.max_r; lra).
  assert (H2 : Qmax 0 (interval - (Qmax now d + 0 - (now + interval + interval)))
               == now + 3 * interval - d).
  { rewrite Q.max_r; rewrite H1; lra. }
  set (t1 := Qmax now d + 0) in *.
  set (due2 := t1 + Qmax 0 (interval - (t1 - (now + interval + interval))))
    in *.
  assert (Hdue2 : due2 == now + 3 * interval)
    by (subst due2; rewrite H2, H1; lra).
  assert (H3 : Qmax t1 due2 + 0 == now + 3 * interval).
  { rewrite Q.max_r; [lra|]. rewrite Hdue2, H1. exact Hd. }
  set (t2 := Qmax t1 due2 + 0) in *.
  set (due3 := t2 + Qmax 0 (interval - (t2 - (now + interval + interval
                                              + interval)))) in *.
  assert (Hdue3 : due3 == now + 4 * interval).
  { subst due3. rewrite Q.max_r; rewrite H3; lra. }
  split; [exact H1|]. split; [exact H3|]. cbn [snd].
  rewrite Q.max_r; [lra|]. rewrite Hdue3, H3. lra.
Qed.

(** Tempo 60 switched to 120 half a second after beat 2: beats at 3000
    (as due), 4000 (2500 + 3 * 500) and 4500 ms. *)
Lemma tempo_change_timing_witness :
  let w :=
    exec (Elapse (500 # 1)) (steady 1 (start (fresh 0 60 4))) in
  exists t1 t2 t3,
    beatTimes (wake 0 (wake 0 (wake 0 (updateBPM 120 w))))
    = (beatTimes w ++ [t1; t2; t3])%list
    /\ t1 == 3000
    /\ t2 == Host.now (host w) + 3 * (60 / 120 * 1000)
    /\ t3 == Host.now (host w) + 4 * (60 / 120 * 1000).
Proof.
  cbv zeta.
  destruct (tempo_change_timing
              (exec (Elapse (500 # 1)) (steady 1 (start (fresh 0 60 4))))
              2%positive (8398080000000000 # 2799360000000) 120)
    as (_ & _ & t1 & t2 & t3 & Hb & H1 & H2 & H3).
  - repeat split.
  - reflexivity.
  - vm_compute. discriminate.
  - vm_compute. discriminate.
  - exists t1, t2, t3. split; [exact Hb|].
    split; [rewrite H1; reflexivity|]. split; assumption.
Defined.

End TimerMore.

(** * The metronome component *)

Section Component.

Import VisualMetronome MetronomePage.

Lemma getBeatsPerMeasure_cases (c : t) :
  getBeatsPerMeasure c = 4%Z \/ getBeatsPerMeasure c = 8%Z.
Proof.
  unfold getBeatsPerMeasure. destruct (String.eqb _ _); auto.
Qed.

Ltac settle :=
  cbn; unfold getBeatsPerMeasure in *; cbn in *;
  rewrite ?Pos.eqb_refl; cbn;
  repeat match goal with
  | |- _ /\ _ => split
  | |- exists _, _ => eexists
  | |- _ = _ => first [reflexivity | assumption]
  | |- (if (?a <? ?b)%Z then _ else _) = _ => destruct (Z.ltb_spec a b)
  | |- (_ <= (if (?a <? ?b)%Z then _ else _))%Z => destruct (Z.ltb_spec a b)
  | |- ((if (?a <? ?b)%Z then _ else _) <= _)%Z => destruct (Z.ltb_spec a b)
  | |- (_ <= _)%Z => lia
  | |- (_ <= (if String.eqb ?s ?u then _ else _))%Z =>
      destruct (String.eqb s u)
  end.

Lemma exec_consistent (o : Op) (pg : Page) :
  consistent pg -> consistent (exec o pg).
Proof.
  destruct pg as [[now pending next beats] [active tempo sig tm sb ss]].
  destruct tm as [[mbpm mbeats minterval mexpected tid beat running]|];
    unfold consistent;
    cbn [self host timer isActive bpm Host.pending
         MetronomeTimer.bpm MetronomeTimer.intervalMs
         MetronomeTimer.beatsPerMeasure MetronomeTimer.currentBeat
         MetronomeTimer.isRunning MetronomeTimer.timeoutId];
    intro H.
  - destruct H as (Hb & Hi & Hm & Hc & Hr). subst mbpm minterval.
    unfold getBeatsPerMeasure in Hm. cbn [timeSignature] in Hm.
    destruct running.
    + destruct Hr as (Ha & id & d & Hid & Hp). subst active tid pending.
      destruct o; cbn [exec].
      * unfold toggleMetronome. settle.
      * unfold changeBpm. cbn [self bpm]. destruct (negb _); settle.
      * unfold handleTimeSignatureChange, saveSettings. settle.
      * unfold visibilityHandler. destruct hidden; settle.
      * unfold disconnectedCallback. settle.
      * unfold wakeUp, onTimer, MetronomeTimer.fire, Host.due. cbn.
        destruct (Pos.eqb_spec id id0) as [<- | Hne]; settle.
      * settle.
    + subst pending.
      destruct o; cbn [exec].
      * unfold toggleMetronome. destruct active; destruct tid; settle.
      * unfold changeBpm. cbn [self bpm]. destruct (negb _); settle.
      * unfold handleTimeSignatureChange, saveSettings. settle.
      * unfold visibilityHandler. destruct hidden, active; settle.
      * unfold disconnectedCallback. destruct tid; settle.
      * settle.
      * settle.
  - destruct H as [Ha Hp]. subst active pending.
    destruct o; cbn [exec].
    + unfold toggleMetronome. settle.
    + unfold changeBpm. cbn [self bpm]. destruct (negb _); settle.
    + unfold handleTimeSignatureChange, saveSettings. settle.
    + unfold visibilityHandler. settle.
    + settle.
    + settle.
    + settle.
Qed.

Lemma run_consistent (ops : list Op) :
  forall pg, consistent pg -> consistent (run ops pg).
Proof.
  induction ops as [|o ops IH]; intros pg H; [exact H|].
  unfold run. cbn [fold_left]. apply IH. apply exec_consistent. exact H.
Qed.

(** X9.  However the component is used (play button, tempo buttons,
    time-signature menu, tab hidden or shown, removal, wake-ups of the
    timer, time passing), the timer it owns has the component's tempo, the
    interval [60 / tempo * 1000], four or eight beats per measure as the
    selected time signature says, and a beat index inside the measure. *)
Theorem component_timer_in_step (t0 tempo : Q) (signature : string)
  (sb : option Q) (ss : option string) (ops : list Op)
  (m : MetronomeTimer.t) :
  let pg := run ops (loaded t0 tempo signature sb ss) in
  timer (self pg) = Some m ->
  MetronomeTimer.bpm m = bpm (self pg)
  /\ MetronomeTimer.intervalMs m = 60 / bpm (self pg) * 1000
  /\ MetronomeTimer.beatsPerMeasure m = getBeatsPerMeasure (self pg)
  /\ (MetronomeTimer.beatsPerMeasure m = 4%Z
      \/ MetronomeTimer.beatsPerMeasure m = 8%Z)
  /\ (1 <= MetronomeTimer.currentBeat m
      <= MetronomeTimer.beatsPerMeasure m)%Z.
Proof.
  intros pg Hm.
  assert (H : consistent pg).
  { apply run_consistent. split; reflexivity. }
  unfold consistent in H. cbv zeta in H. rewrite Hm in H.
  destruct H as (Hb & Hi & Hs & Hc & _).
  split; [exact Hb|]. split; [exact Hi|]. split; [exact Hs|].
  split; [rewrite Hs; apply getBeatsPerMeasure_cases | exact Hc].
Qed.

(** Saved tempo 72 in 8/8: started, two wake-ups, tempo up by one,
    switched to 4/4, one more wake-up. *)
Lemma component_timer_in_step_witness :
  let pg :=
    run [Toggle; WakeUp 1 0; WakeUp 2 0; ChangeBpm 1; TimeSignature "4/4";
         WakeUp 4 0]
      (loaded 0 72 "8/8" (Some 72) (Some "8/8"%string)) in
  exists m,
    timer (self pg) = Some m
    /\ MetronomeTimer.bpm m = bpm (self pg)
    /\ MetronomeTimer.beatsPerMeasure m = 4%Z
    /\ MetronomeTimer.currentBeat m = 2%Z.
Proof.
  cbv zeta. eexists. split; [reflexivity|].
  split; [|split; reflexivity].
  refine (proj1 (component_timer_in_step 0 72 "8/8" (Some 72)
                   (Some "8/8"%string)
                   [Toggle; WakeUp 1 0; WakeUp 2 0; ChangeBpm 1;
                    TimeSignature "4/4"; WakeUp 4 0] _ _)).
  reflexivity.
Defined.

(** X10.  While the component is not active (never started, or toggled
    off) no wake-up is pending on the host, its timer, if any, is not
    running, and a wake-up the host might still try changes nothing: a
    metronome that was switched off stays silent, also when the tab is
    hidden and shown again. *)
Theorem inactive_component_is_silent (t0 tempo : Q) (signature : string)
  (sb : option Q) (ss : option string) (ops : list Op) :
  let pg := run ops (loaded t0 tempo signature sb ss) in
  isActive (self pg) = false ->
  Host.pending (host pg) = []
  /\ (forall m, timer (self pg) = Some m ->
        MetronomeTimer.isRunning m = false)
  /\ (forall id late, exec (WakeUp id late) pg = pg)
  /\ Host.beats (host (exec (Visibility false) pg)) = Host.beats (host pg)
  /\ Host.pending (host (exec (Visibility false) pg)) = [].
Proof.
  intros pg Hoff.
  assert (H : consistent pg).
  { apply run_consistent. split; reflexivity. }
  clearbody pg.
  destruct pg as [[now pending next beats] [active bpm0 sig tm sb' ss']].
  cbn in Hoff. subst active.
  unfold consistent in H. cbn in H.
  destruct tm as [[mbpm mbeats minterval mexpected tid beat running]|].
  - destruct H as (_ & _ & _ & _ & Hr). cbn in Hr.
    destruct running; [destruct Hr; discriminate|].
    cbn in Hr. subst pending. cbn.
    split; [reflexivity|].
    split; [intros m [= <-]; reflexivity|].
    split; [intros id late; reflexivity|]. split; reflexivity.
  - destruct H as [_ Hp]. cbn in Hp. subst pending. cbn.
    split; [reflexivity|]. split; [intros m; discriminate|].
    split; [intros id late; reflexivity|]. split; reflexivity.
Qed.

(** Started, one wake-up, switched off, tab hidden and shown again. *)
Lemma inactive_component_is_silent_witness :
  let pg :=
    run [Toggle; WakeUp 1 0; Toggle; Visibility true; Visibility false]
      (loaded 0 60 "4/4" None None) in
  Host.pending (host pg) = [].
Proof.
  cbv zeta.
  refine (proj1 (inactive_component_is_silent 0 60 "4/4" None None
                   [Toggle; WakeUp 1 0; Toggle; Visibility true;
                    Visibility false] _)).
  reflexivity.
Defined.

Lemma changeBpm_tempo (delta : Q) (pg : Page) :
  bpm (self (changeBpm delta pg))
  == Qmax 20 (Qmin 150 (bpm (self pg) + delta)).
Proof.
  destruct pg as [h [active tempo sig tm sb ss]].
  unfold changeBpm. cbn [self bpm timer host isActive timeSignature].
  destruct (Qeq_bool (Qmax 20 (Qmin 150 (tempo + delta))) tempo) eqn:E;
    cbn [negb].
  - apply Qeq_bool_iff in E. cbn. symmetry. exact E.
  - destruct tm; reflexivity.
Qed.

Lemma clamp_comp (x y : Q) :
  x == y -> Qmax 20 (Qmin 150 x) == Qmax 20 (Qmin 150 y).
Proof. intro H. rewrite H. reflexivity. Qed.

Lemma clamp_up (b step : Q) :
  20 <= b -> 0 <= step ->
  Qmax 20 (Qmin 150 (b + step)) == Qmin 150 (b + step).
Proof.
  intros Hb Hs. apply Q.max_r.
  destruct (Q.min_spec 150 (b + step)) as [[_ ->] | [_ ->]]; lra.
Qed.

Lemma clamp_down (b step : Q) :
  b <= 150 -> step <= 0 ->
  Qmax 20 (Qmin 150 (b + step)) == Qmax 20 (b + step).
Proof.
  intros Hb Hs. rewrite (Q.min_r 150 (b + step)) by lra. reflexivity.
Qed.

(** X11.  Holding a tempo button: from a tempo inside [[20, 150]], [n]
    presses of a step [delta] leave the tempo [min(150, bpm + n * delta)]
    when the step is upwards and [max(20, bpm + n * delta)] when it is
    downwards; the tempo runs into the bound and stays there. *)
Theorem presses_saturate (n : nat) (delta : Q) (pg : Page) :
  20 <= bpm (self pg) -> bpm (self pg) <= 150 ->
  let reached := bpm (self (presses n delta pg)) in
  let sum := bpm (self pg) + inject_Z (Z.of_nat n) * delta in
  (0 <= delta -> reached == Qmin 150 sum)
  /\ (delta <= 0 -> reached == Qmax 20 sum).
Proof.
  intros Hlo Hhi. cbv zeta. unfold presses.
  induction n as [|n IH].
  - change (Nat.iter 0 (changeBpm delta) pg) with pg.
    change (inject_Z (Z.of_nat 0)) with 0.
    split; intros _.
    + rewrite Q.min_r by lra. ring.
    + rewrite Q.max_r by lra. ring.
  - rewrite Nat.iter_succ, changeBpm_tempo.
    set (prev := bpm (self (Nat.iter n (changeBpm delta) pg))) in *.
    destruct IH as [IHup IHdown].
    assert (Hn : 0 <= inject_Z (Z.of_nat n)).
    { change 0 with (inject_Z 0). rewrite <- Zle_Qle. lia. }
    rewrite Nat2Z.inj_succ. unfold Z.succ. rewrite inject_Z_plus.
    change (inject_Z 1) with 1.
    set (k := inject_Z (Z.of_nat n)) in *.
    split; intro Hd.
    + specialize (IHup Hd).
      rewrite (clamp_comp _ _ (Qplus_comp _ _ IHup _ _ (Qeq_refl delta))).
      assert (Hkd : 0 <= k * delta) by (apply Qmult_le_0_compat; lra).
      rewrite clamp_up; [|
        destruct (Q.min_spec 150 (bpm (self pg) + k * delta))
          as [[_ ->] | [_ ->]]; lra | exact Hd].
      destruct (Q.min_spec 150 (bpm (self pg) + k * delta))
        as [[H1 ->] | [H1 ->]];
      destruct (Q.min_spec 150 (bpm (self pg) + (k + 1) * delta))
        as [[H2 ->] | [H2 ->]];
      destruct (Q.min_spec 150 (150 + delta)) as [[H3 H3'] | [H3 H3']];
      destruct (Q.min_spec 150 (bpm (self pg) + k * delta + delta))
        as [[H4 H4'] | [H4 H4']];
      rewrite ?H3', ?H4'; lra.
    + specialize (IHdown Hd).
      rewrite (clamp_comp _ _ (Qplus_comp _ _ IHdown _ _ (Qeq_refl delta))).
      assert (Hkd : k * delta <= 0).
      { setoid_replace (k * delta) with (- (k * - delta)) by ring.
        assert (0 <= k * - delta) by (apply Qmult_le_0_compat; lra). lra. }
      rewrite clamp_down; [|
        destruct (Q.max_spec 20 (bpm (self pg) + k * delta))
          as [[_ ->] | [_ ->]]; lra | exact Hd].
      destruct (Q.max_spec 20 (bpm (self pg) + k * delta))
        as [[H1 ->] | [H1 ->]];
      destruct (Q.max_spec 20 (bpm (self pg) + (k + 1) * delta))
        as [[H2 ->] | [H2 ->]];
      destruct (Q.max_spec 20 (20 + delta)) as [[H3 H3'] | [H3 H3']];
      destruct (Q.max_spec 20 (bpm (self pg) + k * delta + delta))
        as [[H4 H4'] | [H4 H4']];
      rewrite ?H3', ?H4'; lra.
Qed.

(** From the default tempo 60, a hundred presses of [+]: 150. *)
Lemma presses_saturate_witness :
  bpm (self (presses 100 1 (loaded 0 60 "4/4" None None)))
  == Qmin 150 (60 + inject_Z (Z.of_nat 100) * 1).
Proof.
  apply (presses_saturate 100 1 (loaded 0 60 "4/4" None None)).
  - discriminate.
  - discriminate.
  - discriminate.
Defined.

End Component.

(** * The analysis loop and the monitor path *)

Section PipelineMore.

Import AudioProcessor Pipeline.

Lemma detectPitch_plausible (sqrt : Q -> Q) (sampleRate : Q)
  (dataArray : list Q) :
  plausible
    (Traced.value (PitchDetector.detectPitch sqrt sampleRate dataArray)).
Proof.
  unfold PitchDetector.detectPitch. rewrite value_bind.
  unfold Traced.ret, Traced.value at 1. cbn [fst].
  destruct (Qltb 0 _); cbn [andb]; [|exact I].
  destruct (Qle_bool 60 _) eqn:E1; cbn [andb]; [|exact I].
  destruct (Qle_bool _ 1000) eqn:E2; [|exact I].
  apply Qle_bool_iff in E1, E2. split; assumption.
Qed.

Lemma smooth_plausible (p : t) (f : Q) :
  0 <= smoothingFactor p -> smoothingFactor p <= 1 ->
  plausible (smoothedFrequency p) ->
  60 <= f -> f <= 1000 ->
  60 <= smooth p f /\ smooth p f <= 1000.
Proof.
  intros Ha0 Ha1 Hs Hf0 Hf1. unfold smooth.
  destruct (smoothedFrequency p) as [s|]; [|split; assumption].
  cbn in Hs. destruct Hs as [Hs0 Hs1].
  set (a := smoothingFactor p) in *. split; nra.
Qed.

Lemma publish_plausible (frequency : option Q) (p : t) :
  0 <= smoothingFactor p -> smoothingFactor p <= 1 ->
  plausible (smoothedFrequency p) ->
  plausible frequency ->
  plausible (snd (publish frequency p))
  /\ plausible (smoothedFrequency (fst (publish frequency p)))
  /\ smoothingFactor (fst (publish frequency p)) = smoothingFactor p
  /\ analyser (fst (publish frequency p)) = analyser p
  /\ pitchDetector (fst (publish frequency p)) = pitchDetector p.
Proof.
  intros Ha0 Ha1 Hs Hf. unfold publish.
  destruct frequency as [f|]; [|cbn; auto].
  destruct (negb (Qeq_bool f 0)); [|cbn; auto].
  cbn in Hf. destruct Hf as [Hf0 Hf1].
  pose proof (smooth_plausible p f Ha0 Ha1 Hs Hf0 Hf1) as Hsm.
  cbn. auto.
Qed.

(** X12.  Whatever the analyser delivers, frame after frame, every value
    the loop hands to [onPitchUpdate] is either "no pitch" or a frequency
    from 60 to 1000, and so is the value it keeps: smoothing never leaves
    the range [detectPitch] enforces.  (A pipeline with its analyser and
    detector in place, a smoothing factor in [[0, 1]], and nothing or a
    frequency in range stored.) *)
Theorem published_frequencies_plausible (sqrt : Q -> Q)
  (frames : list (list Q * positive)) (p : t) :
  analyser p <> None -> pitchDetector p <> None ->
  0 <= smoothingFactor p -> smoothingFactor p <= 1 ->
  plausible (smoothedFrequency p) ->
  exists p' published,
    ticks sqrt frames p = Some (p', published)
    /\ List.length published = List.length frames
    /\ Forall plausible published
    /\ plausible (smoothedFrequency p').
Proof.
  revert p. induction frames as [|[dataArray frame] rest IH];
    intros p Han Hdet Ha0 Ha1 Hs.
  - exists p, []. repeat split; [constructor | exact Hs].
  - cbn [ticks]. unfold detect.
    destruct (analyser p) as [fft|] eqn:Ean; [|congruence].
    destruct (pitchDetector p) as [sampleRate|] eqn:Edet; [|congruence].
    pose proof (detectPitch_plausible sqrt sampleRate dataArray) as Hf.
    set (frequency :=
           Traced.value
             (PitchDetector.detectPitch sqrt sampleRate dataArray)) in *.
    destruct (publish_plausible frequency p Ha0 Ha1 Hs Hf)
      as (Hu & Hs' & Ha' & Han' & Hdet').
    destruct (publish frequency p) as [p1 update] eqn:Ep.
    cbn [fst snd] in *.
    destruct (IH (setAnimationFrame (Some frame) p1))
      as (p' & published & Ht & Hlen & Hall & Hfin).
    + cbn. rewrite Han', Ean. discriminate.
    + cbn. rewrite Hdet', Edet. discriminate.
    + cbn. rewrite Ha'. exact Ha0.
    + cbn. rewrite Ha'. exact Ha1.
    + cbn. exact Hs'.
    + rewrite Ht. exists p', (update :: published).
      split; [reflexivity|]. split; [cbn; rewrite Hlen; reflexivity|].
      split; [constructor; assumption | exact Hfin].
Qed.

(** A started pipeline at 300 samples per second: a square wave of
    period 2 (150 Hz), silence, the square wave again. *)
Lemma published_frequencies_plausible_witness :
  exists p' published,
    ticks PitchDetector.sqrtMilli
      [([1; 0; 1; 0; 1; 0; 1; 0], 2%positive);
       ([0; 0; 0; 0; 0; 0; 0; 0], 3%positive);
       ([1; 0; 1; 0; 1; 0; 1; 0], 4%positive)]
      (started 300 1) = Some (p', published)
    /\ List.length published = 3%nat
    /\ Forall plausible published
    /\ plausible (smoothedFrequency p').
Proof.
  apply (published_frequencies_plausible PitchDetector.sqrtMilli
           [([1; 0; 1; 0; 1; 0; 1; 0], 2%positive);
            ([0; 0; 0; 0; 0; 0; 0; 0], 3%positive);
            ([1; 0; 1; 0; 1; 0; 1; 0], 4%positive)]
           (started 300 1)).
  - discriminate.
  - discriminate.
  - discriminate.
  - discriminate.
  - exact I.
Defined.




(** X14.  [stop()] gives back every resource the object holds, each
    exactly once and in this order: the animation frame, the gain node,
    the microphone source, the tracks of the stream, the audio context.
    It asks nothing else of the platform, and afterwards the object holds
    nothing: no frame, node, stream or context, no smoothed value, and
    monitoring is off. *)
Theorem stop_releases_everything (p : t) :
  exists p',
    stop p
    = Returned p'
        ((match animationFrame p with
          | Some id => [CancelAnimationFrame id]
          | None => []
          end)
         ++ (if truthy (gainNode p) then [DisconnectGain] else [])
         ++ (if truthy (microphone p) then [DisconnectMicrophone] else [])
         ++ (if truthy (stream p) then [StopTracks] else [])
         ++ (if truthy (audioContext p) then [CloseContext] else []))
    /\ animationFrame p' = None /\ gainNode p' = None
    /\ microphone p' = None /\ analyser p' = None
    /\ stream p' = None /\ audioContext p' = None
    /\ smoothedFrequency p' = None /\ monitoringEnabled p' = false
    /\ pitchDetector p' = pitchDetector p
    /\ smoothingFactor p' = smoothingFactor p.
Proof.
  destruct p as [ctx an mic gain det frame str mon sm alpha].
  destruct frame, gain, mic, an, str, ctx;
    eexists; (split; [reflexivity|]); cbn; repeat split.
Qed.

Lemma exec_monitorAgrees (o : Op) (p : t) :
  monitorAgrees p -> monitorAgrees (exec o p).
Proof.
  destruct p as [ctx an mic gain det frame str mon sm alpha].
  unfold monitorAgrees. cbn [gainNode monitoringEnabled]. intro H.
  destruct o; cbn [exec].
  - unfold enableMonitoring. cbn [gainNode truthy].
    destruct gain; cbn; [reflexivity | exact H].
  - unfold disableMonitoring. cbn [gainNode truthy].
    destruct gain; cbn; [reflexivity | exact H].
  - unfold publish. destruct frequency as [f|]; [destruct (negb _)|];
      cbn; exact H.
  - destruct frame, gain, mic, an, str, ctx; cbn; reflexivity.
Qed.

(** X15.  The monitor path agrees with the monitoring flag and stays so
    under enabling, disabling, analysis results and [stop()]: with a gain
    node, its gain is 0.8 exactly while monitoring is flagged on and 0
    while it is off; without one (before [start()], after [stop()]) the
    flag is off, and enabling does nothing. *)
Theorem monitor_gain_follows_flag (ops : list Op) (p : t) :
  monitorAgrees p ->
  monitorAgrees (run ops p)
  /\ (gainNode (run ops p) = None ->
      isMonitoringEnabled (enableMonitoring (run ops p)) = false).
Proof.
  intro H.
  assert (Hrun : monitorAgrees (run ops p)).
  { revert p H. induction ops as [|o ops IH]; intros p H; [exact H|].
    unfold run. cbn [fold_left]. apply IH. apply exec_monitorAgrees.
    exact H. }
  split; [exact Hrun|].
  intro Hnone. unfold monitorAgrees in Hrun. rewrite Hnone in Hrun.
  unfold enableMonitoring, isMonitoringEnabled. rewrite Hnone. exact Hrun.
Qed.

(** A started pipeline: monitoring on, a pitch, monitoring off and on
    again, then [stop()]. *)
Lemma monitor_gain_follows_flag_witness :
  monitorAgrees
    (run [EnableMonitoring; Publish (Some 440); DisableMonitoring;
          EnableMonitoring; Stop] (started 44100 1)).
Proof.
  refine (proj1 (monitor_gain_follows_flag
                   [EnableMonitoring; Publish (Some 440); DisableMonitoring;
                    EnableMonitoring; Stop] (started 44100 1) _)).
  reflexivity.
Defined.

End PipelineMore.

(** * Notes *)

Section Notes.

Import NoteConverter.

Lemma Qfloor_bounds (x : Q) (lo hi : Z) :
  inject_Z lo <= x -> x < inject_Z (hi + 1) ->
  (lo <= Qfloor x <= hi)%Z.
Proof.
  intros Hlo Hhi. split.
  - rewrite <- (Qfloor_Z lo). apply Qfloor_resp_le. exact Hlo.
  - pose proof (Qfloor_le x) as Hf.
    assert (H : inject_Z (Qfloor x) < inject_Z (hi + 1)) by lra.
    rewrite <- Zlt_Qlt in H. lia.
Qed.

(** What [Math.round] leaves: at most a half, and less than a half
    upwards. *)
Lemma round_remainder (x : Q) :
  - (1 # 2) <= x - inject_Z (round x) /\ x - inject_Z (round x) < 1 # 2.
Proof.
  unfold round.
  pose proof (Qfloor_le (x + (1 # 2))) as Hlo.
  pose proof (Qlt_floor (x + (1 # 2))) as Hhi.
  rewrite inject_Z_plus in Hhi. change (inject_Z 1) with 1 in Hhi.
  split; lra.
Qed.

(** Cents, as [frequencyToNote] computes them from a note number. *)
Lemma cents_bounds (noteNum : Q) :
  (-50 <= round ((noteNum - inject_Z (round noteNum)) * 100) <= 50)%Z.
Proof.
  destruct (round_remainder noteNum) as [Hlo Hhi].
  unfold round at 1. apply Qfloor_bounds.
  - change (inject_Z (-50)) with (-50 # 1). lra.
  - change (inject_Z (50 + 1)) with (51 # 1). lra.
Qed.

(** X16.  Whatever [Math.log2] returns, [frequencyToNote] gives no note
    exactly for a frequency that is 0 or below 20, and otherwise a note
    for that very frequency whose cents lie between -50 and 50. *)
Theorem frequencyToNote_cents (log2 : Q -> Q) (f : Q) :
  match frequencyToNote log2 f with
  | Some n =>
      ~ f == 0 /\ 20 <= f /\ frequency n = f
      /\ (-50 <= cents n <= 50)%Z
  | None => f == 0 \/ f < 20
  end.
Proof.
  unfold frequencyToNote.
  destruct (Qeq_bool f 0) eqn:E0; cbn [orb].
  - left. apply Qeq_bool_iff. exact E0.
  - destruct (Qltb f 20) eqn:E20.
    + right. apply Qltb_lt. exact E20.
    + cbn [frequency cents].
      split; [intro H; apply Qeq_bool_iff in H; congruence|].
      split; [unfold Qltb in E20; rewrite negb_false_iff in E20;
              apply Qle_bool_iff; exact E20|].
      split; [reflexivity | apply cents_bounds].
Qed.

(** The decimal digits of a number that is not negative: they are not
    empty, they do not start with a sharp, and reading them gives the
    number back. *)
Lemma showInt_digits (n : Z) :
  (0 <= n)%Z ->
  exists c rest d,
    showInt n = String c rest
    /\ Ascii.eqb c "#" = false
    /\ NilEmpty.uint_of_string (showInt n) = Some d
    /\ Z.of_uint d = n.
Proof.
  intro Hn. unfold showInt.
  pose proof (DecimalZ.of_to n) as Hof.
  destruct (Z.to_int n) as [d | d] eqn:Ed.
  - cbn [NilZero.string_of_int]. cbn [Z.of_int] in Hof.
    assert (Hnil : d <> Nil).
    { destruct n as [|p|p]; cbn in Ed.
      - injection Ed as <-. discriminate.
      - injection Ed as <-. apply DecimalPos.Unsigned.to_uint_nonnil.
      - discriminate. }
    unfold NilZero.string_of_uint.
    destruct d as [|d|d|d|d|d|d|d|d|d|d]; [congruence|..];
      (eexists; eexists; eexists;
       split; [reflexivity|]; split; [reflexivity|];
       split; [cbn [NilEmpty.string_of_uint NilEmpty.uint_of_string];
               rewrite NilEmpty.usu; reflexivity | exact Hof]).
  - destruct n as [|p|p]; cbn in Ed; try discriminate. lia.
Qed.

(** Reading back a note written as a letter, an optional sharp and an
    octave. *)
Lemma parse_written (c : ascii) (sharp : bool) (n : Z) :
  isNoteLetter c = true ->
  (0 <= n)%Z ->
  parseNoteString
    (String c ((if sharp then "#" else "") ++ showInt n)%string)
  = mkParsed (String c (if sharp then "#" else "")%string) n.
Proof.
  intros Hc Hn.
  destruct (showInt_digits n Hn) as (a & rest & d & Hs & Ha & Hd & Hz).
  rewrite Hs in *. unfold parseNoteString. rewrite Hc.
  destruct sharp; cbn -[NilEmpty.uint_of_string];
    rewrite ?Ha; cbn -[NilEmpty.uint_of_string]; rewrite Hd, Hz;
    reflexivity.
Qed.



(** X18.  [parseNoteString] never fails and returns one of fourteen
    names: the twelve of [NOTE_NAMES], or E# or B#, which the pattern
    accepts and no other function knows. *)
Theorem parseNoteString_names (s : string) :
  In (noteName (parseNoteString s)) (NOTE_NAMES ++ ["E#"; "B#"]%string).
Proof.
  unfold parseNoteString.
  destruct s as [|c rest]; [cbn; auto 20|].
  destruct (isNoteLetter c) eqn:Hc; [|cbn; auto 20].
  assert (Hname :
    forall sharp, In (String c (if sharp : bool then "#" else "")%string)
                    (NOTE_NAMES ++ ["E#"; "B#"]%string)).
  { destruct c as [[|] [|] [|] [|] [|] [|] [|] [|]];
      try discriminate Hc; intros [|]; cbn; auto 20. }
  destruct rest as [|c' rest'].
  - cbn. auto 20.
  - destruct (Ascii.eqb c' "#").
    + destruct rest' as [|a r]; [cbn; auto 20|].
      destruct (NilEmpty.uint_of_string (String a r));
        [exact (Hname true) | cbn; auto 20].
    + destruct (NilEmpty.uint_of_string (String c' rest'));
        [exact (Hname false) | cbn; auto 20].
Qed.

(** X19.  The menu of reference notes: 37 notes from C2 to C5, and the
    frequency played for the [k]-th of them (read by [parseNoteString],
    converted by [noteToFrequency]) is that of MIDI note [36 + k],
    [440 * 2 ^ ((36 + k - 69) / 12)]: consecutive semitones, none of them
    the 440 Hz fallback by accident. *)
Theorem reference_notes_are_semitones (pow2 : Q -> Q) :
  List.length generateReferenceNotes = 37%nat
  /\ hd ""%string generateReferenceNotes = "C2"%string
  /\ last generateReferenceNotes ""%string = "C5"%string
  /\ map (fun s =>
            noteToFrequency pow2 (noteName (parseNoteString s))
              (octave (parseNoteString s)))
         generateReferenceNotes
     = map (fun k => A4_FREQ * pow2 ((inject_Z (Z.of_nat k) - 69) / 12))
         (seq 36 37).
Proof.
  split; [reflexivity|]. split; [reflexivity|]. split; reflexivity.
Qed.

Lemma indexOf_nth (j : nat) :
  (j < 12)%nat ->
  indexOf (nth j NOTE_NAMES "undefined"%string) NOTE_NAMES = Some j.
Proof.
  intro Hj.
  do 12 (destruct j as [|j]; [reflexivity|]). lia.
Qed.

(** X20.  From a frequency to a note and back: when [frequencyToNote]
    names a note at or above MIDI note 12 (octave 0), the name it writes
    is read back by [parseNoteString] as a note of [NOTE_NAMES] with its
    octave, and [noteToFrequency] converts that to the frequency of the
    rounded note number, [440 * 2 ^ ((rounded - 69) / 12)]. *)
Theorem frequency_note_round_trip (log2 pow2 : Q -> Q) (f : Q) (n : Note) :
  frequencyToNote log2 f = Some n ->
  let rounded := round (12 * log2 (f / A4_FREQ) + 69) in
  (12 <= rounded)%Z ->
  let parsed := parseNoteString (note n) in
  In (noteName parsed) NOTE_NAMES
  /\ octave parsed = (rounded / 12 - 1)%Z
  /\ note n = (noteName parsed ++ showInt (octave parsed))%string
  /\ noteToFrequency pow2 (noteName parsed) (octave parsed)
     = A4_FREQ * pow2 ((inject_Z rounded - 69) / 12).
Proof.
  unfold frequencyToNote.
  destruct (Qeq_bool f 0 || Qltb f 20)%bool; [discriminate|].
  intros [= <-]. cbv zeta. cbn [note].
  set (r := round (12 * log2 (f / A4_FREQ) + 69)). intro Hr.
  assert (Hrem : Z.rem r 12 = (r mod 12)%Z) by (apply Z.rem_mod_nonneg; lia).
  pose proof (Z.mod_pos_bound r 12 ltac:(lia)) as Hk.
  pose proof (Z.div_mod r 12 ltac:(lia)) as Hdm.
  rewrite Hrem. unfold nameAt.
  destruct (Z.ltb_spec (r mod 12) 0) as [Hneg | _]; [lia|].
  set (j := Z.to_nat (r mod 12)).
  assert (Hj : (j < 12)%nat) by (subst j; lia).
  assert (Hin : In (nth j NOTE_NAMES "undefined"%string) NOTE_NAMES).
  { apply nth_In. exact Hj. }
  assert (Ho : (0 <= r / 12 - 1)%Z).
  { assert (1 <= r / 12)%Z by (apply Z.div_le_lower_bound; lia). lia. }
  assert (Hp :
    parseNoteString
      (nth j NOTE_NAMES "undefined"%string ++ showInt (r / 12 - 1))
    = mkParsed (nth j NOTE_NAMES "undefined"%string) (r / 12 - 1)%Z).
  { clear - Hj Ho.
    do 12 (destruct j as [|j];
           [first [refine (parse_written _ false _ _ Ho); reflexivity
                  | refine (parse_written _ true _ _ Ho); reflexivity]|]).
    lia. }
  rewrite Hp. cbn [noteName octave].
  split; [exact Hin|]. split; [reflexivity|]. split; [reflexivity|].
  unfold noteToFrequency. rewrite (indexOf_nth j Hj). cbv zeta.
  replace ((r / 12 - 1 + 1) * 12 + Z.of_nat j)%Z with r; [reflexivity|].
  subst j. rewrite Z2Nat.id by lia. lia.
Qed.

(** 440 Hz, with the stand-in for [Math.log2]: A4. *)
Lemma frequency_note_round_trip_witness :
  noteToFrequency pow2Floor
    (noteName (parseNoteString "A4")) (octave (parseNoteString "A4"))
  = A4_FREQ * pow2Floor ((inject_Z 69 - 69) / 12).
Proof.
  refine (proj2 (proj2 (proj2
    (frequency_note_round_trip log2Bits pow2Floor 440
       (mkNote "A4" 0 440) _ _)))).
  - reflexivity.
  - vm_compute. discriminate.
Defined.

Lemma Qfloor_succ (x : Q) : Qfloor (x + 1) = (Qfloor x + 1)%Z.
Proof.
  pose proof (Qfloor_le x) as Hlo. pose proof (Qlt_floor x) as Hhi.
  assert (H : (Qfloor x + 1 <= Qfloor (x + 1) <= Qfloor x + 1)%Z).
  { apply Qfloor_bounds.
    - rewrite inject_Z_plus. change (inject_Z 1) with 1. lra.
    - rewrite !inject_Z_plus in *. change (inject_Z 1) with 1 in *. lra. }
  lia.
Qed.

Lemma pow2Floor_comp (x y : Q) : x == y -> pow2Floor x == pow2Floor y.
Proof.
  intro H. unfold pow2Floor. rewrite H. reflexivity.
Qed.

Lemma pow2Floor_succ (x : Q) : pow2Floor (x + 1) == 2 * pow2Floor x.
Proof.
  unfold pow2Floor. rewrite Qfloor_succ.
  rewrite Qpower_plus by discriminate. change (2 ^ 1) with 2. ring.
Qed.

(** X21.  One octave up is twice the frequency: for every note of
    [NOTE_NAMES] and every octave, provided the host's power function
    doubles from [x] to [x + 1] and maps equal numbers to equal numbers.
    A name outside [NOTE_NAMES] gives 440 in every octave. *)
Theorem octave_doubles (pow2 : Q -> Q) (name : string) (oct : Z) :
  (forall x y, x == y -> pow2 x == pow2 y) ->
  (forall x, pow2 (x + 1) == 2 * pow2 x) ->
  (In name NOTE_NAMES ->
   noteToFrequency pow2 name (oct + 1)
   == 2 * noteToFrequency pow2 name oct)
  /\ (~ In name NOTE_NAMES -> noteToFrequency pow2 name oct = 440).
Proof.
  intros Hcomp Hdouble. split.
  - intro Hin. unfold noteToFrequency.
    destruct (indexOf name NOTE_NAMES) as [k|] eqn:E.
    + cbv zeta.
      assert (He :
        pow2 ((inject_Z ((oct + 1 + 1) * 12 + Z.of_nat k) - 69) / 12)
        == 2 * pow2 ((inject_Z ((oct + 1) * 12 + Z.of_nat k) - 69) / 12)).
      { rewrite <- Hdouble. apply Hcomp.
        replace ((oct + 1 + 1) * 12 + Z.of_nat k)%Z
          with (((oct + 1) * 12 + Z.of_nat k) + 12)%Z by lia.
        rewrite inject_Z_plus. change (inject_Z 12) with 12. field. }
      rewrite He. ring.
    + exfalso. revert Hin. unfold NOTE_NAMES. cbn [In].
      intros [<- | [<- | [<- | [<- | [<- | [<- | [<- | [<- | [<- | [<- |
               [<- | [<- | []]]]]]]]]]]]]; discriminate E.
  - intro Hnot. unfold noteToFrequency.
    destruct (indexOf name NOTE_NAMES) as [k|] eqn:E; [|reflexivity].
    exfalso. apply Hnot. clear Hnot.
    revert k E. generalize NOTE_NAMES.
    induction l as [|a l IH]; intros k E; cbn in E; [discriminate|].
    destruct (String.eqb_spec a name) as [-> | Hne].
    + left. reflexivity.
    + right. destruct (indexOf name l) as [k'|]; [|discriminate].
      apply (IH k'). reflexivity.
Qed.

Lemma octave_doubles_witness :
  noteToFrequency pow2Floor "A" (4 + 1)
  == 2 * noteToFrequency pow2Floor "A" 4.
Proof.
  refine (proj1 (octave_doubles pow2Floor "A" 4
                   pow2Floor_comp pow2Floor_succ) _).
  cbn. auto 20.
Defined.

End Notes.

(** * The reference tone *)

Section Reference.

Import ReferencePlayer.


(** X22.  [stop()] never throws and always ends with nothing held and
    nothing playing, also when [oscillator.stop()] throws: then the
    oscillator's [disconnect()] is skipped, but the gain node is still
    disconnected and the context still closed.  It leaves the timers
    alone, and a second [stop()] asks nothing of the platform. *)
Theorem reference_stop (throws again : bool) (w : World) :
  let w' := stop throws w in
  self w' = create
  /\ host w' = host w
  /\ calls w'
     = (calls w
        ++ (match oscillator (self w) with
            | Some _ =>
                if throws then [] else [StopOscillator; DisconnectOscillator]
            | None => []
            end)
        ++ (match gainNode (self w) with
            | Some _ => [DisconnectGain]
            | None => []
            end)
        ++ (match audioContext (self w) with
            | Some _ => [CloseContext]
            | None => []
            end))%list
  /\ stop again w' = w'.
Proof.
  cbv zeta. destruct w as [h [ctx osc gain playing] log].
  split; [reflexivity|]. split; [reflexivity|]. split.
  - unfold stop. cbn. destruct osc, gain, ctx; reflexivity.
  - unfold stop. cbn. rewrite !app_nil_r. reflexivity.
Qed.



End Reference.


(** * Headphones *)

Section Headphones.

Import HeadphoneDetector.

Variable toLowerCase : string -> string.

Lemma detect_on_outputs (devices : list Device) :
  detectHeadphones toLowerCase (Some devices)
  = (existsb (mentionsHeadphones toLowerCase)
       (filter (fun device => String.eqb (kind device) "audiooutput")
          devices)
     || Nat.ltb 1
          (List.length
             (filter (fun device => String.eqb (kind device) "audiooutput")
                devices)))%bool.
Proof. reflexivity. Qed.

(** X24.  [detectHeadphones] looks at audio outputs only: without one it
    answers no, whatever the other devices are called; with two or more
    it answers yes, whatever they are called; a device more never turns a
    yes into a no; and when the device list cannot be had it answers
    no. *)
Theorem detectHeadphones_by_outputs (devices : list Device)
  (device : Device) :
  let outputs :=
    filter (fun d => String.eqb (kind d) "audiooutput") devices in
  detectHeadphones toLowerCase None = false
  /\ detectHeadphones toLowerCase (Some devices)
     = detectHeadphones toLowerCase (Some outputs)
  /\ (outputs = [] -> detectHeadphones toLowerCase (Some devices) = false)
  /\ ((2 <= List.length outputs)%nat ->
      detectHeadphones toLowerCase (Some devices) = true)
  /\ (detectHeadphones toLowerCase (Some devices) = true ->
      detectHeadphones toLowerCase (Some (device :: devices)) = true).
Proof.
  cbv zeta. split; [reflexivity|]. split; [|split; [|split]].
  - rewrite !detect_on_outputs.
    assert (E : forall l,
              filter (fun d => String.eqb (kind d) "audiooutput")
                (filter (fun d => String.eqb (kind d) "audiooutput") l)
              = filter (fun d => String.eqb (kind d) "audiooutput") l).
    { induction l as [|a l IH]; [reflexivity|]. cbn [filter].
      destruct (String.eqb (kind a) "audiooutput") eqn:Ea;
        [cbn [filter]; rewrite Ea, IH; reflexivity | exact IH]. }
    rewrite E. reflexivity.
  - intro Hnone. rewrite detect_on_outputs, Hnone. reflexivity.
  - intro Htwo. rewrite detect_on_outputs.
    apply orb_true_iff. right. apply Nat.ltb_lt. lia.
  - rewrite !detect_on_outputs. cbn [filter].
    destruct (String.eqb (kind device) "audiooutput"); [|exact (fun H => H)].
    cbn [existsb List.length].
    set (outputs := filter _ devices).
    intro H. apply orb_true_iff in H. apply orb_true_iff.
    destruct H as [H | H].
    + left. rewrite H. apply orb_true_r.
    + right. apply Nat.ltb_lt in H. apply Nat.ltb_lt. lia.
Qed.

End Headphones.

Section HeadphonesExample.

Import HeadphoneDetector.

(** Laptop speakers and a microphone called a headset: no; the same with
    a second output: yes. *)
Lemma detectHeadphones_by_outputs_witness :
  let devices :=
    [mkDevice "audiooutput" "Built-in Speakers";
     mkDevice "audioinput" "USB Headset Microphone"] in
  detectHeadphones lowerAscii (Some devices) = false
  /\ detectHeadphones lowerAscii
       (Some (mkDevice "audiooutput" "HDMI" :: devices)) = true.
Proof.
  cbv zeta. split; [reflexivity|].
  refine (proj1 (proj2 (proj2 (proj2
    (detectHeadphones_by_outputs lowerAscii
       [mkDevice "audiooutput" "HDMI";
        mkDevice "audiooutput" "Built-in Speakers";
        mkDevice "audioinput" "USB Headset Microphone"]
       (mkDevice "audiooutput" "HDMI"))))) _).
  cbn. lia.
Defined.

End HeadphonesExample.

(** * The note display *)

Section Display.

Import VoiceMonitor.

(** X25.  What the display shows after a pitch update that the pipeline
    can publish (nothing, or a frequency from 60 to 1000) does not depend
    on what it showed before: "--" and 0 for nothing, else the note and
    the cents of that frequency, the cents between -50 and 50.  The
    branch that keeps the old note, for a frequency below 20, is never
    taken. *)
Theorem display_follows_pipeline (log2 : Q -> Q) (update : option Q)
  (before : Display) :
  Pipeline.plausible update ->
  let after := handlePitchUpdate log2 update before in
  after = handlePitchUpdate log2 update blank
  /\ (-50 <= centsOff after <= 50)%Z
  /\ match update with
     | Some f =>
         exists n,
           NoteConverter.frequencyToNote log2 f = Some n
           /\ currentNote after = NoteConverter.note n
           /\ centsOff after = NoteConverter.cents n
     | None => after = blank
     end.
Proof.
  intro Hp. cbv zeta. unfold handlePitchUpdate.
  destruct update as [f|]; [|cbn; repeat split; lia].
  cbn in Hp. destruct Hp as [H60 H1000].
  destruct (Qeq_bool f 0) eqn:E0.
  { apply Qeq_bool_iff in E0. lra. }
  cbn [negb]. unfold NoteConverter.frequencyToNote. rewrite E0.
  assert (E20 : Qltb f 20 = false).
  { unfold Qltb. rewrite negb_false_iff. apply Qle_bool_iff. lra. }
  rewrite E20. cbn [orb centsOff currentNote NoteConverter.cents
                    NoteConverter.note].
  split; [reflexivity|]. split; [apply cents_bounds|].
  eexists. split; [reflexivity|]. split; reflexivity.
Qed.

(** 440 Hz with the stand-in for [Math.log2]: "A4", 0 cents. *)
Lemma display_follows_pipeline_witness :
  handlePitchUpdate NoteConverter.log2Bits (Some 440) (mkDisplay "C3" 12)
  = handlePitchUpdate NoteConverter.log2Bits (Some 440) blank.
Proof.
  refine (proj1 (display_follows_pipeline NoteConverter.log2Bits (Some 440)
                   (mkDisplay "C3" 12) _)).
  split; discriminate.
Defined.

End Display.
